(** * fastapi-file-router: the route loader [load_routes]

    A shallow embedding of [src/fastapi_file_router/router.py].

    - Python [str] values are [string]s (sequences of bytes; the UTF-8
      encoding keeps both the order of code points and the positions at
      which a substring occurs, so comparison and [replace] agree with
      Python's on the encoded text).
    - A [pathlib.Path] is a record: an anchor flag and its parts.
    - The directory tree that [os.walk] reads is an inductive [tree].
    - [load_routes] runs in a small monad that threads the heap of router
      objects (their mutable [tags] lists), may raise, and records the
      calls made to the collaborators ([importlib.import_module], the
      logger, [app.include_router]) in the order they happen. *)

From Stdlib Require Import String Ascii List Bool Arith Lia.
From Stdlib Require Import Permutation Sorted OrderedTypeEx.
Import ListNotations.
Local Open Scope string_scope.
Local Open Scope list_scope.

(* ================================================================== *)
(** ** Python [str] operations used by the loader *)
(* ================================================================== *)

Module Str.

(** [s.startswith(p)] *)
Definition startswith (s p : string) : bool := String.prefix p s.

(** [sub in s] : [sub] occurs somewhere in [s]. *)
Fixpoint contains (sub s : string) : bool :=
  String.prefix sub s ||
  match s with
  | EmptyString => false
  | String _ s' => contains sub s'
  end.

(** [s[n:]] *)
Fixpoint drop (n : nat) (s : string) : string :=
  match n, s with
  | O, _ => s
  | S _, EmptyString => EmptyString
  | S k, String _ s' => drop k s'
  end.

(** [s[:n]] *)
Fixpoint take (n : nat) (s : string) : string :=
  match n, s with
  | O, _ => EmptyString
  | S _, EmptyString => EmptyString
  | S k, String c s' => String c (take k s')
  end.

(** [s.endswith(p)] *)
Definition endswith (s p : string) : bool :=
  Nat.leb (String.length p) (String.length s)
  && String.eqb (drop (String.length s - String.length p) s) p.

(** [s[:-n]] for a positive [n] *)
Definition drop_last (n : nat) (s : string) : string :=
  take (String.length s - n) s.

(** The scan of [s.replace(old, new)] for a non-empty [old]: left to
    right, every occurrence found is replaced and the scan resumes
    after it.  [skip] counts the characters of a found occurrence that
    are still to be passed over. *)
Fixpoint replace_from (old new : string) (skip : nat) (s : string) : string :=
  match s with
  | EmptyString => EmptyString
  | String c s' =>
      match skip with
      | S k => replace_from old new k s'
      | O =>
          if String.prefix old (String c s')
          then new ++ replace_from old new (String.length old - 1) s'
          else String c (replace_from old new 0 s')
      end
  end.

(** [s.replace("", new)] puts [new] before every character and at the
    end. *)
Fixpoint interleave (new s : string) : string :=
  match s with
  | EmptyString => new
  | String c s' => new ++ String c (interleave new s')
  end.

(** [s.replace(old, new)] *)
Definition replace (old new s : string) : string :=
  match old with
  | EmptyString => interleave new s
  | String _ _ => replace_from old new 0 s
  end.

(** [s.split(sep)] for a one-character separator. *)
Fixpoint split (sep : ascii) (s : string) : list string :=
  match s with
  | EmptyString => [EmptyString]
  | String c s' =>
      if Ascii.eqb c sep then EmptyString :: split sep s'
      else match split sep s' with
           | [] => [String c EmptyString]
           | w :: ws => String c w :: ws
           end
  end.

(** [sep.join(parts)] *)
Definition join (sep : string) (parts : list string) : string :=
  String.concat sep parts.

(** [s.rfind(c)] for a character [c]; [None] stands for [-1]. *)
Fixpoint rfind (c : ascii) (s : string) : option nat :=
  match s with
  | EmptyString => None
  | String a s' =>
      match rfind c s' with
      | Some i => Some (S i)
      | None => if Ascii.eqb a c then Some 0 else None
      end
  end.

End Str.

(** [l[1:-1]] on a list. *)
Definition slice_1_m1 {A : Type} (l : list A) : list A := removelast (tl l).

(* ================================================================== *)
(** ** [re.search(r"\[(.*?)\]", s)] *)
(* ================================================================== *)

Module Re.

Definition newline : ascii := Ascii.ascii_of_nat 10.

(** After an opening bracket: the lazy [(.*?)] followed by ["]"].  The
    dot matches every character but the line feed, so the group ends at
    the first ["]"] and there is no match once a line feed comes
    first. *)
Fixpoint group_body (s : string) : option string :=
  match s with
  | EmptyString => None
  | String c s' =>
      if Ascii.eqb c "]" then Some EmptyString
      else if Ascii.eqb c newline then None
      else option_map (String c) (group_body s')
  end.

(** The leftmost match; the result is [match.group(1)]. *)
Fixpoint search_group (s : string) : option string :=
  match s with
  | EmptyString => None
  | String c s' =>
      if Ascii.eqb c "["
      then match group_body s' with
           | Some g => Some g
           | None => search_group s'
           end
      else search_group s'
  end.

End Re.

(* ================================================================== *)
(** ** [pathlib.Path] *)
(* ================================================================== *)

(** A POSIX path whose anchor is empty or ["/"], with its parts after the
    anchor.  The parts are what [pathlib] keeps after parsing: non-empty,
    without ["/"], and never ["."]. *)
Record Path : Type := mkPath { absolute : bool; parts : list string }.

Module PurePath.

(** [p.name] : the last part, or [""] when there is none. *)
Definition name (p : Path) : string := last (parts p) "".

(** [p / child] for a child that is a single file or directory name. *)
Definition div (p : Path) (child : string) : Path :=
  mkPath (absolute p) (parts p ++ [child]).

(** [p.as_posix()] *)
Definition as_posix (p : Path) : string :=
  match absolute p, parts p with
  | false, [] => "."
  | false, ps => Str.join "/" ps
  | true, ps => "/" ++ Str.join "/" ps
  end.

(** [Path(file).suffix] for a bare file name (pathlib up to 3.13: the
    text from the last dot on, when that dot is neither the first nor
    the last character). *)
Definition suffix (file : string) : string :=
  match Str.rfind "." file with
  | Some i =>
      if ((0 <? i) && (i <? String.length file - 1))%nat then Str.drop i file
      else ""
  | None => ""
  end.

(** [Path(file).stem] for a bare file name. *)
Definition stem (file : string) : string :=
  match Str.rfind "." file with
  | Some i =>
      if ((0 <? i) && (i <? String.length file - 1))%nat then Str.take i file
      else file
  | None => file
  end.

End PurePath.

(* ================================================================== *)
(** ** The directory tree and [os.walk] *)
(* ================================================================== *)

(** What is found at a path.  [Dir]: a directory, with the names of its
    files and its subdirectories, each in the order in which the
    operating system lists them.  [NoDir]: nothing that can be listed (no
    such path, a regular file, a directory that may not be read);
    [os.walk] passes over it without a word. *)
Inductive tree : Type :=
| NoDir
| Dir (files : list string) (subdirs : forest)
with forest : Type :=
| FNil
| FCons (dirname : string) (sub : tree) (rest : forest).

(** [walk(directory)], which is [os.walk(directory)]: top-down, a
    directory before its subdirectories, and nothing for what cannot be
    listed.  An item is the directory's path and its file names (the
    loader ignores the list of subdirectory names). *)
Fixpoint walk (top : Path) (t : tree) : list (Path * list string) :=
  match t with
  | NoDir => []
  | Dir files subdirs => (top, files) :: walk_forest top subdirs
  end
with walk_forest (top : Path) (f : forest) : list (Path * list string) :=
  match f with
  | FNil => []
  | FCons d sub rest => walk (PurePath.div top d) sub ++ walk_forest top rest
  end.

(* ================================================================== *)
(** ** Collaborators, heap and effects *)
(* ================================================================== *)

(** A reference to an [APIRouter] object. *)
Definition router_ref : Type := nat.

(** The levels of the [logging] module. *)
Inductive level : Type := DEBUG | INFO | WARNING | ERROR | CRITICAL.

(** The messages of the loader, by their format string, with the values
    that fill it (the elapsed time of the last one is left out). *)
Inductive message : Type :=
| LoadingRoutesFrom (directory : Path)
| SkippingMisspelled (stem : string) (root : Path)
| NoRouterIn (file : Path)
| LoadedRouter (text : string)
| RoutesLoaded.

(** What [importlib.import_module(name)] does: it raises, or it returns a
    module, whose [router] attribute is a router object or is missing
    (or falsy).  The import system caches modules by name, so the same
    name gives the same object every time. *)
Inductive import_result : Type :=
| ImportRaises
| Imported (router : option router_ref).

Definition importer : Type := string -> import_result.

(** The calls that leave the loader, in the order they are made.
    [IncludeRouter] carries the value of each argument at the call. *)
Inductive event : Type :=
| Log (lvl : level) (msg : message)
| ImportModule (name : string)
| IncludeRouter (router : router_ref) (prefix : string) (tags : list string).

(** The heap: the [tags] list of every router object. *)
Definition heap : Type := router_ref -> list string.

Definition set_tags (h : heap) (r : router_ref) (ts : list string) : heap :=
  fun r' => if Nat.eqb r' r then ts else h r'.

Inductive result (A : Type) : Type :=
| Ok (a : A)
| Raised.
Arguments Ok {A} a.
Arguments Raised {A}.

(** A computation reads and updates the heap, returns or raises, and
    emits events. *)
Definition M (A : Type) : Type := heap -> result A * heap * list event.

Definition ret {A : Type} (a : A) : M A := fun h => (Ok a, h, []).

Definition bind {A B : Type} (m : M A) (f : A -> M B) : M B :=
  fun h =>
    match m h with
    | (Ok a, h1, t1) =>
        match f a h1 with
        | (r, h2, t2) => (r, h2, t1 ++ t2)
        end
    | (Raised, h1, t1) => (Raised, h1, t1)
    end.

Notation "x <- m ;; k" := (bind m (fun x => k))
  (at level 61, m at next level, right associativity).
Notation "m ;; k" := (bind m (fun _ => k))
  (at level 61, right associativity).

Definition emit (e : event) : M unit := fun h => (Ok tt, h, [e]).

(** A [for] loop that threads the value [a]. *)
Fixpoint foldM {A B : Type} (f : A -> B -> M A) (a : A) (l : list B) : M A :=
  match l with
  | [] => ret a
  | b :: l' => a' <- f a b ;; foldM f a' l'
  end.

(** A [for] loop run for its effects. *)
Fixpoint forM_ {B : Type} (f : B -> M unit) (l : list B) : M unit :=
  match l with
  | [] => ret tt
  | b :: l' => f b ;; forM_ f l'
  end.

(** [importlib.import_module(name)] followed by
    [getattr(module, "router", None)]. *)
Definition import_router (imp : importer) (name : string) : M (option router_ref) :=
  fun h =>
    match imp name with
    | ImportRaises => (Raised, h, [ImportModule name])
    | Imported r => (Ok r, h, [ImportModule name])
    end.

(** [router.tags += [tag]] : the list object is extended in place. *)
Definition append_tag (router : router_ref) (tag : string) : M unit :=
  fun h => (Ok tt, set_tags h router (h router ++ [tag]), []).

(** What the [include_router] of the host application does with a call,
    given the router, the prefix and the tags: it returns ([true]) or it
    raises ([false]). *)
Definition host : Type := router_ref -> string -> list string -> bool.

(** [app.include_router(router, prefix=prefix, tags=router.tags)] : the
    call is made, and it returns or raises as the host decides. *)
Definition include_router (app : host) (router : router_ref) (prefix : string)
  : M unit :=
  fun h =>
    (if app router prefix (h router) then Ok tt else Raised,
     h,
     [IncludeRouter router prefix (h router)]).

(* ================================================================== *)
(** ** router.py *)
(* ================================================================== *)

(** [log(message, verbose)] *)
Definition log (msg : message) (verbose : bool) : M unit :=
  if verbose then emit (Log INFO msg) else emit (Log DEBUG msg).

(** [square_to_curly_brackets(path)] *)
Definition square_to_curly_brackets (path : string) : string :=
  Str.replace "]" "}" (Str.replace "[" "{" path).

(** A collected entry: the route path and the router. *)
Definition entry : Type := (string * router_ref)%type.

(** ["/".join((root / file).as_posix().split("/")[1:-1])] *)
Definition joined_dirs (root : Path) (file : string) : string :=
  Str.join "/" (slice_1_m1 (Str.split "/" (PurePath.as_posix (PurePath.div root file)))).

(** The value of [route_path] after lines 98-100. *)
Definition dir_route_path (directory root : Path) (file : string) : string :=
  Str.replace (PurePath.name directory) ""
    (square_to_curly_brackets (joined_dirs root file)).

(** The value of [route_path] after lines 102-112. *)
Definition route_path_of (directory root : Path) (file : string) : string :=
  let route_path := dir_route_path directory root file in
  let stem := PurePath.stem file in
  match Re.search_group stem with
  | Some _ =>
      match Re.search_group stem with
      | Some param_name => route_path ++ "/{" ++ param_name ++ "}"
      | None => route_path
      end
  | None =>
      if negb (String.eqb stem "route") then route_path ++ "/" ++ stem
      else route_path
  end.

(** The name given to [import_module]:
    [(root / file).as_posix().replace("/", ".")[:-3]] *)
Definition module_name (root : Path) (file : string) : string :=
  Str.drop_last 3 (Str.replace "/" "." (PurePath.as_posix (PurePath.div root file))).

(** The body of the inner loop (lines 77-118) for one file; a [continue]
    returns [routers] as it is. *)
Definition process_file (imp : importer) (directory : Path)
    (auto_tags verbose : bool) (root : Path)
    (routers : list entry) (file : string) : M (list entry) :=
  if Str.startswith file "__" || negb (String.eqb (PurePath.suffix file) ".py")
  then ret routers
  else if Str.contains "route" (PurePath.stem file)
          && negb (String.eqb (PurePath.stem file) "route")
  then
    log (SkippingMisspelled (PurePath.stem file) root) verbose ;;
    ret routers
  else
    router <- import_router imp (module_name root file) ;;
    match router with
    | None =>
        log (NoRouterIn (PurePath.div root file)) verbose ;;
        ret routers
    | Some router =>
        let route_path := route_path_of directory root file in
        (if auto_tags
         then append_tag router (Str.replace (PurePath.name directory) "" route_path)
         else ret tt) ;;
        ret (routers ++ [(route_path, router)])
    end.

(** The body of the outer loop (lines 73-118) for one item of the walk. *)
Definition process_dir (imp : importer) (directory : Path)
    (auto_tags verbose : bool)
    (routers : list entry) (item : Path * list string) : M (list entry) :=
  let '(root, files) := item in
  if Str.startswith (PurePath.name root) "__" then ret routers
  else foldM (process_file imp directory auto_tags verbose root) routers files.

(** The first loop (lines 70-118): what it leaves in [routers]. *)
Definition accumulate (imp : importer) (directory : Path) (t : tree)
    (auto_tags verbose : bool) : M (list entry) :=
  foldM (process_dir imp directory auto_tags verbose) [] (walk directory t).

(** [sorted(routers, key=operator.itemgetter(0))] : a stable sort on the
    route path, compared as strings.  An element goes after the elements
    with an equal key that are already there. *)
Fixpoint insert_by_path (e : entry) (l : list entry) : list entry :=
  match l with
  | [] => [e]
  | x :: l' =>
      if String.ltb (fst e) (fst x) then e :: x :: l'
      else x :: insert_by_path e l'
  end.

Fixpoint sorted_from (acc : list entry) (l : list entry) : list entry :=
  match l with
  | [] => acc
  | e :: l' => sorted_from (insert_by_path e acc) l'
  end.

(** The order of the sort: the route paths compared as strings. *)
Definition path_le (a b : entry) : Prop := String.leb (fst a) (fst b) = true.

Definition sorted (routers : list entry) : list entry := sorted_from [] routers.

(** The first loop and the sort: the sequence the second loop runs over. *)
Definition collect (imp : importer) (directory : Path) (t : tree)
    (auto_tags verbose : bool) : M (list entry) :=
  routers <- accumulate imp directory t auto_tags verbose ;;
  ret (sorted routers).

(** The body of the second loop (lines 122-127). *)
Definition register (app : host) (verbose : bool) (e : entry) : M unit :=
  let '(route_path, router) := e in
  log (LoadedRouter ("Loaded router with path /" ++ route_path)) verbose ;;
  include_router app router route_path.

(** [load_routes(app, directory, auto_tags, verbose)].  The host
    application is the receiver of the [IncludeRouter] events; the value
    returned is the reference that was passed in. *)
Definition load_routes (app : host) (imp : importer) (directory : Path) (t : tree)
    (auto_tags verbose : bool) : M unit :=
  log (LoadingRoutesFrom directory) verbose ;;
  entries <- collect imp directory t auto_tags verbose ;;
  forM_ (register app verbose) entries ;;
  log RoutesLoaded verbose ;;
  ret tt.

(** The [include_router] calls in a sequence of events. *)
Fixpoint registrations (t : list event) : list (router_ref * string * list string) :=
  match t with
  | [] => []
  | IncludeRouter r p ts :: t' => (r, p, ts) :: registrations t'
  | _ :: t' => registrations t'
  end.

(** The names passed to [import_module] in a sequence of events. *)
Fixpoint imports (t : list event) : list string :=
  match t with
  | [] => []
  | ImportModule n :: t' => n :: imports t'
  | _ :: t' => imports t'
  end.

Definition result_of {A : Type} (x : result A * heap * list event) : result A :=
  fst (fst x).
Definition heap_of {A : Type} (x : result A * heap * list event) : heap :=
  snd (fst x).
Definition events_of {A : Type} (x : result A * heap * list event) : list event :=
  snd x.

(** *** Three properties of a computation *)

(** It calls [include_router] at no point. *)
Definition registers_nothing {A : Type} (m : M A) : Prop :=
  forall h, registrations (events_of (m h)) = [].

(** It leaves the heap as it found it. *)
Definition keeps_heap {A : Type} (m : M A) : Prop :=
  forall h, heap_of (m h) = h.

(** What it returns and what it emits do not depend on the heap. *)
Definition heap_blind {A : Type} (m : M A) : Prop :=
  forall h h', result_of (m h) = result_of (m h')
            /\ events_of (m h) = events_of (m h').

(** The events of the second loop over [entries] in the heap [h], as
    far as it gets. *)
Definition registration_events (verbose : bool) (h : heap) (entries : list entry)
  : list event :=
  flat_map
    (fun e =>
       [Log (if verbose then INFO else DEBUG)
            (LoadedRouter ("Loaded router with path /" ++ fst e));
        IncludeRouter (snd e) (fst e) (h (snd e))])
    entries.

(** The host takes the registration of the entry [e], made in the heap
    [h]. *)
Definition accepts (app : host) (h : heap) (e : entry) : bool :=
  app (snd e) (fst e) (h (snd e)).

(** A host that takes every call, as the mock of the tests does. *)
Definition accepting : host := fun _ _ _ => true.

(** The check that FastAPI's [include_router] makes on the prefix: a
    prefix that is not empty starts with ["/"] and does not end with
    ["/"]. *)
Definition fastapi : host :=
  fun _ prefix _ =>
    String.eqb prefix ""
    || (Str.startswith prefix "/" && negb (Str.endswith prefix "/")).

(** What a run of [load_routes] that got [entries] from its first loop,
    with the heap [h1] and the events [tc], is: the registrations of the
    entries [done], which are all entries when the run returns and end
    with the first one that the host does not take when it raises. *)
Definition second_loop_outcome (app : host) (directory : Path) (verbose : bool)
    (entries : list entry) (h1 : heap) (tc : list event)
    (run : result unit * heap * list event) : Prop :=
  exists done rest,
    entries = done ++ rest
    /\ ((rest = []
         /\ Forall (fun e => accepts app h1 e = true) done
         /\ run = (Ok tt, h1,
                   Log (if verbose then INFO else DEBUG) (LoadingRoutesFrom directory)
                   :: tc ++ registration_events verbose h1 done
                         ++ [Log (if verbose then INFO else DEBUG) RoutesLoaded]))
        \/ (exists before e,
              done = before ++ [e]
              /\ accepts app h1 e = false
              /\ Forall (fun e => accepts app h1 e = true) before
              /\ run = (Raised, h1,
                        Log (if verbose then INFO else DEBUG)
                            (LoadingRoutesFrom directory)
                        :: tc ++ registration_events verbose h1 done))).

(* ================================================================== *)
(** ** The statements of the specification *)
(* ================================================================== *)

(** [s] cut at the occurrences of [name] that a scan from the left
    finds: a piece that is followed by an occurrence is the text before
    the first occurrence in what is left of [s] (so [name] does not occur
    in the piece extended by all but the last character of [name]), and
    the last piece has no occurrence. *)
Inductive scan_cut (name : string) : string -> list string -> Prop :=
| cut_last (s : string) :
    Str.contains name s = false -> scan_cut name s [s]
| cut_next (piece rest : string) (pieces : list string) :
    Str.contains name (piece ++ Str.drop_last 1 name) = false ->
    scan_cut name rest pieces ->
    scan_cut name (piece ++ name ++ rest)%string (piece :: pieces).

(** "Exactly one occurrence of the root directory's name is taken out of
    the joined string, and every other character stays." *)
Definition strips_one_occurrence (directory root : Path) (file : string) : Prop :=
  exists before after,
    square_to_curly_brackets (joined_dirs root file)
    = (before ++ PurePath.name directory ++ after)%string
    /\ dir_route_path directory root file = (before ++ after)%string.

(** "The tag appended to the router's tags is the path template." *)
Definition tag_is_route_path (imp : importer) (directory root : Path)
    (verbose : bool) (routers : list entry) (file : string) (h : heap) : Prop :=
  forall router,
    imp (module_name root file) = Imported (Some router) ->
    heap_of (process_file imp directory true verbose root routers file h) router
    = h router ++ [route_path_of directory root file].


(** "The sequence of pairs that [collect] gives does not depend on the
    order in which the directories are visited": two trees in which the
    first loop finds the same entries, in whatever order, give the same
    sequence. *)
Definition visitation_order_free (imp : importer) (directory : Path)
    (t t' : tree) (auto_tags verbose : bool) (h : heap) : Prop :=
  forall routers routers',
    result_of (accumulate imp directory t auto_tags verbose h) = Ok routers ->
    result_of (accumulate imp directory t' auto_tags verbose h) = Ok routers' ->
    Permutation routers routers' ->
    result_of (collect imp directory t auto_tags verbose h)
    = result_of (collect imp directory t' auto_tags verbose h).

(** The tree without the directories whose name starts with ["__"]: such
    a directory is emptied, subdirectories included. *)
Fixpoint prune_dunder (top : Path) (t : tree) : tree :=
  match t with
  | NoDir => NoDir
  | Dir files subdirs =>
      if Str.startswith (PurePath.name top) "__" then Dir [] FNil
      else Dir files (prune_dunder_forest top subdirs)
  end
with prune_dunder_forest (top : Path) (f : forest) : forest :=
  match f with
  | FNil => FNil
  | FCons d sub rest =>
      FCons d (prune_dunder (PurePath.div top d) sub) (prune_dunder_forest top rest)
  end.

(** The tree in which such a directory has lost its own files only. *)
Fixpoint clear_dunder_files (top : Path) (t : tree) : tree :=
  match t with
  | NoDir => NoDir
  | Dir files subdirs =>
      Dir (if Str.startswith (PurePath.name top) "__" then [] else files)
          (clear_dunder_forest top subdirs)
  end
with clear_dunder_forest (top : Path) (f : forest) : forest :=
  match f with
  | FNil => FNil
  | FCons d sub rest =>
      FCons d (clear_dunder_files (PurePath.div top d) sub)
            (clear_dunder_forest top rest)
  end.

(** "Nothing anywhere inside a directory whose name starts with ["__"]
    gives an entry." *)
Definition dunder_subtrees_contribute_nothing (imp : importer) (directory : Path)
    (t : tree) (auto_tags verbose : bool) (h : heap) : Prop :=
  result_of (collect imp directory t auto_tags verbose h)
  = result_of (collect imp directory (prune_dunder directory t) auto_tags verbose h).

(** "The skip of a misspelled route file is logged at warning level." *)
Definition misspelled_logged_as_warning (events : list event) (stem : string) : Prop :=
  exists root, In (Log WARNING (SkippingMisspelled stem root)) events.

(** The path reached from [top] through the directories [subs]. *)
Definition extend (top : Path) (subs : list string) : Path :=
  fold_left PurePath.div subs top.

(** The subdirectory of that name in a listing. *)
Fixpoint lookup_dir (f : forest) (d : string) : option tree :=
  match f with
  | FNil => None
  | FCons d' sub rest => if String.eqb d' d then Some sub else lookup_dir rest d
  end.

(** What the tree has at the end of the path [subs] below its root. *)
Fixpoint subtree (subs : list string) (t : tree) : option tree :=
  match subs with
  | [] => Some t
  | d :: subs' =>
      match t with
      | NoDir => None
      | Dir _ subdirs =>
          match lookup_dir subdirs d with
          | Some sub => subtree subs' sub
          | None => None
          end
      end
  end.

(** *** Inputs for the examples *)

(** The directory [app/api], passed as a relative path. *)
Definition app_api : Path := mkPath false ["app"; "api"].

(** The directory [api], passed as a relative path. *)
Definition api_dir : Path := mkPath false ["api"].

(** [app/api/usersapi/route.py] and [app/api/users/route.py], two files
    with the route path [/users], listed in this order ... *)
Definition siblings_a : tree :=
  Dir [] (FCons "usersapi" (Dir ["route.py"] FNil)
         (FCons "users" (Dir ["route.py"] FNil) FNil)).

(** ... and in the other order. *)
Definition siblings_b : tree :=
  Dir [] (FCons "users" (Dir ["route.py"] FNil)
         (FCons "usersapi" (Dir ["route.py"] FNil) FNil)).

(** Every module has the same router, object 0. *)
Definition one_router : importer := fun _ => Imported (Some 0).

(** Every module has a router of its own. *)
Definition router_per_module : importer :=
  fun name => Imported (Some (String.length name)).

(** The module of [users/[user_id].py] cannot be imported. *)
Definition broken_module : importer :=
  fun name =>
    if String.eqb name "app.api.users.[user_id]" then ImportRaises
    else Imported (Some (String.length name)).

(** No router has a tag yet. *)
Definition no_tags : heap := fun _ => [].

(** [app/api/users/route.py] *)
Definition users_tree : tree :=
  Dir [] (FCons "users" (Dir ["route.py"] FNil) FNil).

(** The tree of the docstring of [load_routes]. *)
Definition docstring_tree : tree :=
  Dir []
    (FCons "users" (Dir ["route.py"; "[user_id].py"] FNil)
    (FCons "documents"
       (Dir [] (FCons "[document_id]" (Dir ["route.py"] FNil) FNil))
     FNil)).

(** [app/api/__private/sub/route.py] *)
Definition private_tree : tree :=
  Dir [] (FCons "__private"
            (Dir ["hidden.py"] (FCons "sub" (Dir ["route.py"] FNil) FNil))
            FNil).

(** [app/api/users/router.py] and [app/api/users/router.txt] *)
Definition misspelled_tree : tree :=
  Dir [] (FCons "users" (Dir ["router.py"; "router.txt"] FNil) FNil).

Scheme tree_forest_ind := Induction for tree Sort Prop
with forest_tree_ind := Induction for forest Sort Prop.

(* ================================================================== *)
(** ** Readings used to state further properties *)
(* ================================================================== *)

(** The same function applied to every character. *)
Fixpoint map_chars (f : ascii -> ascii) (s : string) : string :=
  match s with
  | EmptyString => EmptyString
  | String c s' => String (f c) (map_chars f s')
  end.

(** What [square_to_curly_brackets] does to one character. *)
Definition curly (c : ascii) : ascii :=
  if Ascii.eqb c "[" then "{"%char
  else if Ascii.eqb c "]" then "}"%char
  else c.

(** A name as a directory listing gives it: without ["/"]. *)
Definition plain_name (s : string) : Prop := Str.contains "/" s = false.

(** A tree as a file system gives it: no file or directory name has a
    ["/"]. *)
Fixpoint plain_tree (t : tree) : Prop :=
  match t with
  | NoDir => True
  | Dir files subdirs => Forall plain_name files /\ plain_forest subdirs
  end
with plain_forest (f : forest) : Prop :=
  match f with
  | FNil => True
  | FCons d sub rest => plain_name d /\ plain_tree sub /\ plain_forest rest
  end.

(** *** The first loop read as a comprehension *)

(** The file gets past both filters of the inner loop (lines 78-85). *)
Definition passes_filters (file : string) : bool :=
  negb (Str.startswith file "__" || negb (String.eqb (PurePath.suffix file) ".py"))
  && negb (Str.contains "route" (PurePath.stem file)
           && negb (String.eqb (PurePath.stem file) "route")).

(** The entry that a file gives, if any. *)
Definition file_entries (imp : importer) (directory root : Path) (file : string)
  : list entry :=
  if passes_filters file
  then match imp (module_name root file) with
       | Imported (Some router) => [(route_path_of directory root file, router)]
       | _ => []
       end
  else [].

(** The entries of one item of the walk. *)
Definition dir_entries (imp : importer) (directory : Path)
    (item : Path * list string) : list entry :=
  if Str.startswith (PurePath.name (fst item)) "__" then []
  else flat_map (file_entries imp directory (fst item)) (snd item).

(** The entries of the tree, in the order of the walk. *)
Definition tree_entries (imp : importer) (directory : Path) (t : tree) : list entry :=
  flat_map (dir_entries imp directory) (walk directory t).

(** The module that a file makes the loader import, if any. *)
Definition file_imports (root : Path) (file : string) : list string :=
  if passes_filters file then [module_name root file] else [].

Definition dir_imports (item : Path * list string) : list string :=
  if Str.startswith (PurePath.name (fst item)) "__" then []
  else flat_map (file_imports (fst item)) (snd item).

(** The modules of the tree, in the order of the walk. *)
Definition tree_imports (directory : Path) (t : tree) : list string :=
  flat_map dir_imports (walk directory t).

(** The tag that line 117 derives from a route path. *)
Definition tag_of (directory : Path) (route_path : string) : string :=
  Str.replace (PurePath.name directory) "" route_path.

(** The heap after the tags of [entries] have been appended, one after
    the other. *)
Definition add_tags (directory : Path) (auto_tags : bool) (h : heap)
    (entries : list entry) : heap :=
  if auto_tags
  then fold_left
         (fun h e => set_tags h (snd e) (h (snd e) ++ [tag_of directory (fst e)]))
         entries h
  else h.

(** How far a run [x] of a loop has got, for a loop that is to add
    [all_entries] to [routers] and to import [all_imports], started in
    the heap [h]: the entries added and the modules imported so far are
    the first ones of the two lists, the heap has the tags of the entries
    added, and nothing has been registered; a run that returned has done
    all of it and every import went well, a run that raised stopped at
    the first module that cannot be imported. *)
Definition progress (imp : importer) (directory : Path) (auto_tags : bool)
    (all_entries : list entry) (all_imports : list string)
    (routers : list entry) (h : heap)
    (x : result (list entry) * heap * list event) : Prop :=
  exists done rest_entries rest_imports,
    all_entries = done ++ rest_entries
    /\ all_imports = imports (events_of x) ++ rest_imports
    /\ heap_of x = add_tags directory auto_tags h done
    /\ registrations (events_of x) = []
    /\ match result_of x with
       | Ok routers' =>
           routers' = routers ++ done /\ rest_entries = [] /\ rest_imports = []
           /\ Forall (fun name => imp name <> ImportRaises) (imports (events_of x))
       | Raised =>
           exists before name,
             imports (events_of x) = before ++ [name]
             /\ imp name = ImportRaises
             /\ Forall (fun name => imp name <> ImportRaises) before
       end.

(** *** Logging *)

(** An event with the level of a log record forgotten. *)
Definition quiet (e : event) : event :=
  match e with
  | Log _ msg => Log DEBUG msg
  | _ => e
  end.

(** Two computations that do the same but for the levels at which they
    log. *)
Definition same_but_levels {A : Type} (m m' : M A) : Prop :=
  forall h,
    result_of (m' h) = result_of (m h)
    /\ heap_of (m' h) = heap_of (m h)
    /\ map quiet (events_of (m' h)) = map quiet (events_of (m h)).

(** The event is no log record, or a log record at level [lvl]. *)
Definition logged_at (lvl : level) (e : event) : Prop :=
  match e with
  | Log l _ => l = lvl
  | _ => True
  end.

(** [app/api/users/a[id].py] and [app/api/users/bb[id].py], two files
    with one route path. *)
Definition colliding_tree : tree :=
  Dir [] (FCons "users" (Dir ["bb[id].py"; "a[id].py"] FNil) FNil).


Example replace_ex1 : Str.replace "api" "" "api/users" = "/users".
Proof. reflexivity. Qed.
Example replace_ex2 : Str.replace "aa" "b" "aaa" = "ba".
Proof. reflexivity. Qed.
Example replace_ex3 : Str.replace "" "-" "ab" = "-a-b-".
Proof. reflexivity. Qed.
Example split_ex1 : Str.split "/" "/tmp/api/route.py" = [""; "tmp"; "api"; "route.py"].
Proof. reflexivity. Qed.
Example split_ex2 : Str.split "/" "a//b/" = ["a"; ""; "b"; ""].
Proof. reflexivity. Qed.
Example search_ex1 : Re.search_group "user[id]s" = Some "id".
Proof. reflexivity. Qed.
Example search_ex2 : Re.search_group "[[a]b]" = Some "[a".
Proof. reflexivity. Qed.
Example search_ex3 : Re.search_group "a]b[" = None.
Proof. reflexivity. Qed.
Example stem_ex1 : PurePath.stem "a.b.py" = "a.b" /\ PurePath.suffix "a.b.py" = ".py".
Proof. split; reflexivity. Qed.
Example stem_ex2 : PurePath.stem ".py" = ".py" /\ PurePath.suffix ".py" = "".
Proof. split; reflexivity. Qed.
Example stem_ex3 : PurePath.stem "[user_id].py" = "[user_id]".
Proof. reflexivity. Qed.

(** The route paths of the specification's examples, for the root passed
    as the bare relative path [api] ... *)
Example route_path_index :
  route_path_of (mkPath false ["api"]) (mkPath false ["api"; "users"]) "route.py"
  = "users".
Proof. reflexivity. Qed.
Example route_path_parameter :
  route_path_of (mkPath false ["api"]) (mkPath false ["api"; "users"]) "[user_id].py"
  = "users/{user_id}".
Proof. reflexivity. Qed.
Example route_path_nested :
  route_path_of (mkPath false ["api"])
    (mkPath false ["api"; "users"; "[user_id]"]) "profile.py"
  = "users/{user_id}/profile".
Proof. reflexivity. Qed.

(** ... for the root passed as [app/api], where the first part is
    dropped by the slice and the name [api] by the replacement ... *)
Example route_path_two_parts :
  route_path_of app_api (mkPath false ["app"; "api"; "users"]) "[user_id].py"
  = "/users/{user_id}".
Proof. reflexivity. Qed.

(** ... and for an absolute root, where the slice drops only the empty
    string before the first ["/"]. *)
Example route_path_absolute :
  route_path_of (mkPath true ["tmp"; "xyz"; "api"])
    (mkPath true ["tmp"; "xyz"; "api"; "users"]) "route.py"
  = "tmp/xyz//users".
Proof. reflexivity. Qed.

Example module_name_ex :
  module_name (mkPath false ["app"; "api"; "users"]) "route.py" = "app.api.users.route".
Proof. reflexivity. Qed.

(* ================================================================== *)
(** ** Facts about strings *)
(* ================================================================== *)

Section StringFacts.

Lemma append_assoc (a b c : string) : ((a ++ b) ++ c = a ++ (b ++ c))%string.
Proof. induction a as [|x a IH]; simpl; [reflexivity | now rewrite IH]. Qed.

Lemma append_empty_r (a : string) : (a ++ "")%string = a.
Proof. induction a as [|x a IH]; simpl; [reflexivity | now rewrite IH]. Qed.

Lemma length_append (a b : string) :
  String.length (a ++ b) = String.length a + String.length b.
Proof. induction a as [|x a IH]; simpl; [reflexivity | now rewrite IH]. Qed.

Lemma prefix_append (old rest : string) : String.prefix old (old ++ rest) = true.
Proof.
  induction old as [|x old IH]; simpl.
  - now destruct rest.
  - destruct (ascii_dec x x) as [_|N]; [exact IH | now elim N].
Qed.

Lemma prefix_inv (old s : string) :
  String.prefix old s = true -> exists rest, s = (old ++ rest)%string.
Proof.
  revert s. induction old as [|x old IH]; intros s H.
  - now exists s.
  - destruct s as [|y s]; simpl in H; [discriminate|].
    destruct (ascii_dec x y) as [->|_]; [|discriminate].
    destruct (IH _ H) as [rest ->]. now exists rest.
Qed.

Lemma prefix_weaken (old a b : string) :
  String.prefix old a = true -> String.prefix old (a ++ b) = true.
Proof.
  intros H. destruct (prefix_inv _ _ H) as [rest ->].
  rewrite append_assoc. apply prefix_append.
Qed.

Lemma prefix_empty_r (old : string) :
  old <> "" -> String.prefix old "" = false.
Proof. destruct old; [congruence | reflexivity]. Qed.

Lemma contains_empty_r (old : string) :
  old <> "" -> Str.contains old "" = false.
Proof. destruct old; [congruence | reflexivity]. Qed.

(** A string in which [sub] does not occur: it does not start with
    [sub], and [sub] does not occur further on. *)
Lemma contains_cons_false (sub : string) (c : ascii) (s : string) :
  Str.contains sub (String c s) = false ->
  String.prefix sub (String c s) = false /\ Str.contains sub s = false.
Proof. simpl. intros H. now apply orb_false_iff in H. Qed.

Lemma contains_char_cons_false (x c : ascii) (s : string) :
  Str.contains (String x "") (String c s) = false ->
  x <> c /\ Str.contains (String x "") s = false.
Proof.
  intros H. apply contains_cons_false in H. destruct H as [H1 H2].
  split; [|exact H2]. intros ->. simpl in H1.
  destruct (ascii_dec c c) as [_|N]; [|now elim N].
  destruct s; discriminate.
Qed.

Lemma contains_char_cons (x c : ascii) (s : string) :
  x <> c -> Str.contains (String x "") s = false ->
  Str.contains (String x "") (String c s) = false.
Proof.
  intros N H.
  change (String.prefix (String x "") (String c s)
          || Str.contains (String x "") s = false).
  rewrite H, orb_false_r. cbn [String.prefix].
  destruct (ascii_dec x c); [contradiction | reflexivity].
Qed.

End StringFacts.

(** *** [str.replace] *)

Lemma replace_from_skip (old new a b : string) :
  Str.replace_from old new (String.length a) (a ++ b)
  = Str.replace_from old new 0 b.
Proof.
  induction a as [|x a IH]; simpl.
  - now destruct b.
  - exact IH.
Qed.

Lemma replace_from_unfold (old new : string) (c : ascii) (s : string) :
  Str.replace_from old new 0 (String c s)
  = if String.prefix old (String c s)
    then (new ++ Str.replace_from old new (String.length old - 1) s)%string
    else String c (Str.replace_from old new 0 s).
Proof. reflexivity. Qed.

(** At an occurrence of [old] the scan emits [new] and resumes after the
    occurrence. *)
Lemma replace_from_hit (old new rest : string) :
  old <> "" ->
  Str.replace_from old new 0 (old ++ rest)
  = (new ++ Str.replace_from old new 0 rest)%string.
Proof.
  intros Hne. destruct old as [|x o]; [congruence|].
  change (String x o ++ rest)%string with (String x (o ++ rest)).
  rewrite replace_from_unfold.
  change (String x (o ++ rest)) with (String x o ++ rest)%string.
  rewrite prefix_append. f_equal.
  replace (String.length (String x o) - 1) with (String.length o)
    by (simpl; lia).
  apply replace_from_skip.
Qed.

(** Elsewhere the character is kept. *)
Lemma replace_from_miss (old new : string) (c : ascii) (s : string) :
  String.prefix old (String c s) = false ->
  Str.replace_from old new 0 (String c s)
  = String c (Str.replace_from old new 0 s).
Proof. intros H. now rewrite replace_from_unfold, H. Qed.

(** A string without an occurrence of [old] is returned as it is. *)
Lemma replace_from_absent (old new s : string) :
  Str.contains old s = false -> Str.replace_from old new 0 s = s.
Proof.
  induction s as [|c s IH]; intros H; [reflexivity|].
  apply contains_cons_false in H. destruct H as [H1 H2].
  rewrite replace_from_miss by exact H1. now rewrite IH.
Qed.

Lemma replace_absent (old s : string) :
  Str.contains old s = false -> Str.replace old "" s = s.
Proof.
  intros H. destruct old as [|x o].
  - destruct s; discriminate.
  - now apply replace_from_absent.
Qed.

Lemma replace_empty_name (s : string) : Str.replace "" "" s = s.
Proof. induction s as [|c s IH]; simpl in *; [reflexivity | now rewrite IH]. Qed.

(** [s.replace(old, "")] for a non-empty [old]: [s] is cut at the
    occurrences that the scan finds, the pieces between them are glued
    together, and no piece contains [old]. *)
Lemma replace_pieces (old : string) :
  old <> "" ->
  forall s,
  exists pieces,
    pieces <> [] /\
    s = String.concat old pieces /\
    Str.replace old "" s = String.concat "" pieces /\
    Forall (fun p => Str.contains old p = false) pieces.
Proof.
  intros Hne s.
  assert (Hrep : forall u, Str.replace old "" u = Str.replace_from old "" 0 u).
  { intros u. unfold Str.replace. destruct old; [congruence | reflexivity]. }
  remember (String.length s) as n eqn:Hn. revert s Hn.
  induction n as [n IH] using lt_wf_ind. intros s Hn.
  destruct s as [|c s].
  - exists [""]. repeat split; try discriminate.
    + now rewrite Hrep.
    + constructor; [|constructor]. now apply contains_empty_r.
  - destruct (String.prefix old (String c s)) eqn:Hp.
    + destruct (prefix_inv _ _ Hp) as [rest Hs].
      assert (Hlen : String.length rest < n).
      { rewrite Hn, Hs, length_append. destruct old; [congruence | simpl; lia]. }
      destruct (IH _ Hlen rest eq_refl) as (ps & Hps & Hcat & Hr & Hall).
      exists ("" :: ps). repeat split; try discriminate.
      * rewrite Hs. destruct ps as [|p ps]; [congruence|].
        simpl. simpl in Hcat. now rewrite <- Hcat.
      * rewrite Hs, Hrep, replace_from_hit by exact Hne.
        rewrite <- Hrep, Hr. destruct ps; reflexivity.
      * constructor; [|exact Hall]. now apply contains_empty_r.
    + assert (Hlen : String.length s < n) by (rewrite Hn; simpl; lia).
      destruct (IH _ Hlen s eq_refl) as (ps & Hps & Hcat & Hr & Hall).
      destruct ps as [|p ps]; [congruence|].
      exists (String c p :: ps). repeat split; try discriminate.
      * rewrite Hcat at 1. destruct ps; reflexivity.
      * rewrite Hrep, replace_from_miss by exact Hp.
        rewrite <- Hrep, Hr. destruct ps; reflexivity.
      * assert (Hcp := Forall_inv Hall). assert (Hrest := Forall_inv_tail Hall).
        simpl in Hcp.
        constructor; [|exact Hrest].
        change (String.prefix old (String c p) || Str.contains old p = false).
        rewrite Hcp, orb_false_r.
        destruct (String.prefix old (String c p)) eqn:Hq; [|reflexivity].
        assert (Hw : String.prefix old (String c s) = true).
        { rewrite Hcat. destruct ps as [|q ps].
          - exact Hq.
          - change (String.concat old (p :: q :: ps))
              with (p ++ old ++ String.concat old (q :: ps))%string.
            change (String c (p ++ old ++ String.concat old (q :: ps))%string)
              with (String c p ++ old ++ String.concat old (q :: ps))%string.
            now apply prefix_weaken. }
        congruence.
Qed.

(** *** The bracket pattern *)

Lemma group_body_found (param post : string) :
  Str.contains "]" param = false ->
  Str.contains (String Re.newline "") param = false ->
  Re.group_body (param ++ "]" ++ post) = Some param.
Proof.
  induction param as [|c p IH]; intros H1 H2; [reflexivity|].
  apply contains_char_cons_false in H1. destruct H1 as [N1 H1].
  apply contains_char_cons_false in H2. destruct H2 as [N2 H2].
  simpl.
  destruct (Ascii.eqb_spec c "]") as [->|_]; [now elim N1|].
  destruct (Ascii.eqb_spec c Re.newline) as [->|_]; [now elim N2|].
  change (Re.group_body (p ++ String "]" post))
    with (Re.group_body (p ++ "]" ++ post)).
  now rewrite IH.
Qed.

Lemma search_group_found (pre param post : string) :
  Str.contains "[" pre = false ->
  Str.contains "]" param = false ->
  Str.contains (String Re.newline "") param = false ->
  Re.search_group (pre ++ "[" ++ param ++ "]" ++ post) = Some param.
Proof.
  intros H0 H1 H2. induction pre as [|c pre IH].
  - simpl. change (Re.group_body (param ++ String "]" post))
      with (Re.group_body (param ++ "]" ++ post)).
    now rewrite group_body_found.
  - apply contains_char_cons_false in H0. destruct H0 as [N0 H0].
    simpl. destruct (Ascii.eqb_spec c "[") as [->|_]; [now elim N0|].
    now apply IH.
Qed.

(** A match of the pattern is a bracketed group of the string: the text
    between a ["["] and the first ["]"] after it, on one line. *)
Lemma group_body_sound (s g : string) :
  Re.group_body s = Some g ->
  exists post, s = (g ++ "]" ++ post)%string
    /\ Str.contains "]" g = false
    /\ Str.contains (String Re.newline "") g = false.
Proof.
  revert g. induction s as [|c s IH]; intros g H; [discriminate|].
  simpl in H. destruct (Ascii.eqb_spec c "]") as [->|N1].
  - injection H as <-. now exists s.
  - destruct (Ascii.eqb_spec c Re.newline) as [->|N2]; [discriminate|].
    destruct (Re.group_body s) as [g'|] eqn:E; [|discriminate].
    injection H as <-. destruct (IH _ eq_refl) as (post & -> & Ha & Hb).
    exists post. split; [reflexivity|].
    split; apply contains_char_cons; auto.
Qed.

Lemma search_group_sound (s g : string) :
  Re.search_group s = Some g ->
  exists pre post, s = (pre ++ "[" ++ g ++ "]" ++ post)%string
    /\ Str.contains "]" g = false
    /\ Str.contains (String Re.newline "") g = false.
Proof.
  induction s as [|c s IH]; intros H; [discriminate|].
  simpl in H.
  assert (Hrec : Re.search_group s = Some g ->
    exists pre post, String c s = (pre ++ "[" ++ g ++ "]" ++ post)%string
      /\ Str.contains "]" g = false
      /\ Str.contains (String Re.newline "") g = false).
  { intros H'. destruct (IH H') as (pre & post & -> & Ha & Hb).
    now exists (String c pre), post. }
  destruct (Ascii.eqb_spec c "[") as [->|_]; [|now apply Hrec].
  destruct (Re.group_body s) as [g'|] eqn:E; [|now apply Hrec].
  injection H as ->. destruct (group_body_sound _ _ E) as (post & -> & Ha & Hb).
  now exists "", post.
Qed.

(* ================================================================== *)
(** ** Facts about computations *)
(* ================================================================== *)

Section Computations.

Context {A B : Type}.

Lemma bind_ok (m : M A) (f : A -> M B) h a h1 t1 :
  m h = (Ok a, h1, t1) ->
  bind m f h = (result_of (f a h1), heap_of (f a h1), t1 ++ events_of (f a h1)).
Proof.
  intros E. unfold bind. rewrite E.
  now destruct (f a h1) as [[r h2] t2].
Qed.

Lemma bind_raised (m : M A) (f : A -> M B) h h1 t1 :
  m h = (Raised, h1, t1) -> bind m f h = (Raised, h1, t1).
Proof. intros E. unfold bind. now rewrite E. Qed.

Lemma bind_ext (m m' : M A) (f f' : A -> M B) :
  (forall h, m h = m' h) -> (forall a h, f a h = f' a h) ->
  forall h, bind m f h = bind m' f' h.
Proof.
  intros Hm Hf h. unfold bind. rewrite Hm.
  destruct (m' h) as [[[a|] h1] t1]; [|reflexivity]. now rewrite Hf.
Qed.

Lemma bind_ret_l (a : A) (f : A -> M B) h : bind (ret a) f h = f a h.
Proof. unfold bind, ret. now destruct (f a h) as [[r h2] t2]. Qed.

End Computations.

Lemma bind_assoc {A B C : Type} (m : M A) (f : A -> M B) (g : B -> M C) h :
  bind (bind m f) g h = bind m (fun a => bind (f a) g) h.
Proof.
  unfold bind. destruct (m h) as [[[a|] h1] t1]; [|reflexivity].
  destruct (f a h1) as [[[b|] h2] t2]; [|reflexivity].
  destruct (g b h2) as [[r h3] t3]. now rewrite app_assoc.
Qed.

Lemma foldM_app {A B : Type} (f : A -> B -> M A) (l1 l2 : list B) :
  forall a h,
    foldM f a (l1 ++ l2) h = bind (foldM f a l1) (fun a' => foldM f a' l2) h.
Proof.
  induction l1 as [|b l1 IH]; intros a h.
  - simpl. now rewrite bind_ret_l.
  - simpl. rewrite bind_assoc. apply bind_ext; [reflexivity|].
    intros a' h'. apply IH.
Qed.

Lemma registrations_app (t1 t2 : list event) :
  registrations (t1 ++ t2) = registrations t1 ++ registrations t2.
Proof.
  induction t1 as [|e t1 IH]; [reflexivity|].
  destruct e; simpl; now rewrite IH.
Qed.

Lemma imports_app (t1 t2 : list event) :
  imports (t1 ++ t2) = imports t1 ++ imports t2.
Proof.
  induction t1 as [|e t1 IH]; [reflexivity|].
  destruct e; simpl; now rewrite IH.
Qed.

(** *** The three properties are kept by [bind] and by the loops *)

Section Preservation.

Context {A B : Type}.

Lemma registers_nothing_bind (m : M A) (f : A -> M B) :
  registers_nothing m -> (forall a, registers_nothing (f a)) ->
  registers_nothing (bind m f).
Proof.
  intros Hm Hf h. specialize (Hm h). unfold bind.
  destruct (m h) as [[[a|] h1] t1]; [|exact Hm].
  specialize (Hf a h1). destruct (f a h1) as [[r h2] t2].
  unfold events_of in *. simpl in *. now rewrite registrations_app, Hm, Hf.
Qed.

Lemma keeps_heap_bind (m : M A) (f : A -> M B) :
  keeps_heap m -> (forall a, keeps_heap (f a)) -> keeps_heap (bind m f).
Proof.
  intros Hm Hf h. specialize (Hm h). unfold bind.
  destruct (m h) as [[[a|] h1] t1]; [|exact Hm].
  specialize (Hf a h1). destruct (f a h1) as [[r h2] t2].
  unfold heap_of in *. simpl in *. congruence.
Qed.

Lemma heap_blind_bind (m : M A) (f : A -> M B) :
  heap_blind m -> (forall a, heap_blind (f a)) -> heap_blind (bind m f).
Proof.
  intros Hm Hf h h'. destruct (Hm h h') as [Hr He]. unfold bind.
  destruct (m h) as [[r1 h1] t1], (m h') as [[r1' h1'] t1'].
  unfold result_of, events_of in *. simpl in *. subst r1' t1'.
  destruct r1 as [a|]; [|now split].
  destruct (Hf a h1 h1') as [Hr' He'].
  destruct (f a h1) as [[r2 h2] t2], (f a h1') as [[r2' h2'] t2'].
  simpl in *. subst. now split.
Qed.

End Preservation.

Section LoopPreservation.

Context {A B : Type}.

Lemma registers_nothing_foldM (f : A -> B -> M A) (l : list B) :
  (forall a b, registers_nothing (f a b)) ->
  forall a, registers_nothing (foldM f a l).
Proof.
  intros Hf. induction l as [|b l IH]; intros a; [now intros h|].
  simpl. apply registers_nothing_bind; auto.
Qed.


Lemma heap_blind_foldM (f : A -> B -> M A) (l : list B) :
  (forall a b, heap_blind (f a b)) -> forall a, heap_blind (foldM f a l).
Proof.
  intros Hf. induction l as [|b l IH]; intros a; [now intros h h'|].
  simpl. apply heap_blind_bind; auto.
Qed.

End LoopPreservation.

Lemma log_facts (msg : message) (verbose : bool) :
  registers_nothing (log msg verbose) /\ keeps_heap (log msg verbose)
  /\ heap_blind (log msg verbose).
Proof. destruct verbose; repeat split. Qed.

Lemma import_router_facts (imp : importer) (name : string) :
  registers_nothing (import_router imp name)
  /\ keeps_heap (import_router imp name)
  /\ heap_blind (import_router imp name).
Proof.
  unfold registers_nothing, keeps_heap, heap_blind, import_router.
  destruct (imp name); repeat split.
Qed.

Lemma ret_facts {A : Type} (a : A) :
  registers_nothing (ret a) /\ keeps_heap (ret a) /\ heap_blind (ret a).
Proof. repeat split. Qed.

Lemma append_tag_facts (router : router_ref) (tag : string) :
  registers_nothing (append_tag router tag) /\ heap_blind (append_tag router tag).
Proof. repeat split. Qed.

(** *** The first loop *)

Section FirstLoop.

Variable imp : importer.
Variable directory : Path.
Variables auto_tags verbose : bool.

Ltac step :=
  first [ apply registers_nothing_bind | apply keeps_heap_bind
        | apply heap_blind_bind
        | apply log_facts | apply import_router_facts | apply ret_facts
        | apply append_tag_facts ]; intros.

Lemma process_file_registers_nothing root routers file :
  registers_nothing (process_file imp directory auto_tags verbose root routers file).
Proof.
  unfold process_file.
  destruct (_ || _); [apply ret_facts|].
  destruct (_ && _); [repeat step|].
  step; [step|]. destruct a; [|repeat step].
  destruct auto_tags; repeat step.
Qed.

Lemma process_file_heap_blind root routers file :
  heap_blind (process_file imp directory auto_tags verbose root routers file).
Proof.
  unfold process_file.
  destruct (_ || _); [apply ret_facts|].
  destruct (_ && _); [repeat step|].
  step; [step|]. destruct a; [|repeat step].
  destruct auto_tags; repeat step.
Qed.


Lemma process_dir_registers_nothing routers item :
  registers_nothing (process_dir imp directory auto_tags verbose routers item).
Proof.
  destruct item as [root files]. unfold process_dir.
  destruct (Str.startswith _ _); [apply ret_facts|].
  apply registers_nothing_foldM. intros. apply process_file_registers_nothing.
Qed.

Lemma process_dir_heap_blind routers item :
  heap_blind (process_dir imp directory auto_tags verbose routers item).
Proof.
  destruct item as [root files]. unfold process_dir.
  destruct (Str.startswith _ _); [apply ret_facts|].
  apply heap_blind_foldM. intros. apply process_file_heap_blind.
Qed.


Lemma collect_registers_nothing t :
  registers_nothing (collect imp directory t auto_tags verbose).
Proof.
  unfold collect, accumulate. apply registers_nothing_bind.
  - apply registers_nothing_foldM. intros. apply process_dir_registers_nothing.
  - intros. apply ret_facts.
Qed.

Lemma collect_heap_blind t :
  heap_blind (collect imp directory t auto_tags verbose).
Proof.
  unfold collect, accumulate. apply heap_blind_bind.
  - apply heap_blind_foldM. intros. apply process_dir_heap_blind.
  - intros. apply ret_facts.
Qed.


End FirstLoop.

(* ================================================================== *)
(** ** Facts about [sorted] *)
(* ================================================================== *)

Section StringOrder.

Lemma leb_refl (a : string) : String.leb a a = true.
Proof. destruct (String.leb_total a a); assumption. Qed.

Lemma leb_iff (a b : string) :
  String.leb a b = true <-> a = b \/ String_as_OT.lt a b.
Proof.
  unfold String.leb. destruct (String.compare a b) eqn:E.
  - apply String_as_OT.cmp_eq in E. tauto.
  - apply String_as_OT.cmp_lt in E. tauto.
  - split; [discriminate|]. intros [->|L].
    + assert (X := proj2 (String_as_OT.cmp_eq b b) eq_refl).
      unfold String_as_OT.cmp in X. congruence.
    + apply String_as_OT.cmp_lt in L. unfold String_as_OT.cmp in L. congruence.
Qed.

Lemma leb_trans (a b c : string) :
  String.leb a b = true -> String.leb b c = true -> String.leb a c = true.
Proof.
  rewrite !leb_iff. intros [->|L1] [->|L2]; auto.
  right. eapply String_as_OT.lt_trans; eassumption.
Qed.

Lemma ltb_true_leb (a b : string) :
  String.ltb a b = true -> String.leb a b = true.
Proof. unfold String.ltb, String.leb. now destruct (String.compare a b). Qed.

Lemma ltb_false_leb (a b : string) :
  String.ltb a b = false -> String.leb b a = true.
Proof.
  unfold String.ltb, String.leb. rewrite (String.compare_antisym b a).
  now destruct (String.compare a b).
Qed.

(** Two sorted sequences of the same strings are the same sequence. *)
Lemma sorted_strings_unique (l1 l2 : list string) :
  StronglySorted (fun a b => String.leb a b = true) l1 ->
  StronglySorted (fun a b => String.leb a b = true) l2 ->
  Permutation l1 l2 -> l1 = l2.
Proof.
  revert l2. induction l1 as [|a l1 IH]; intros l2 S1 S2 P.
  - now apply Permutation_nil in P.
  - destruct l2 as [|b l2].
    + symmetry in P. now apply Permutation_nil in P.
    + apply StronglySorted_inv in S1. destruct S1 as [S1 F1].
      apply StronglySorted_inv in S2. destruct S2 as [S2 F2].
      assert (E : a = b).
      { assert (Ib : In b (a :: l1))
          by (eapply Permutation_in; [symmetry; exact P | now left]).
        assert (Ia : In a (b :: l2))
          by (eapply Permutation_in; [exact P | now left]).
        destruct Ib as [->|Ib]; [reflexivity|].
        destruct Ia as [->|Ia]; [reflexivity|].
        rewrite Forall_forall in F1, F2.
        apply String.leb_antisym; auto. }
      subst b. f_equal. apply IH; auto.
      eapply Permutation_cons_inv; exact P.
Qed.

End StringOrder.

Section SortedFacts.

Lemma insert_by_path_perm (e : entry) (l : list entry) :
  Permutation (e :: l) (insert_by_path e l).
Proof.
  induction l as [|x l IH]; simpl; [reflexivity|].
  destruct (String.ltb (fst e) (fst x)); [reflexivity|].
  rewrite perm_swap. now constructor.
Qed.

Lemma insert_by_path_sorted (e : entry) (l : list entry) :
  StronglySorted path_le l -> StronglySorted path_le (insert_by_path e l).
Proof.
  induction l as [|x l IH]; intros S; simpl.
  - repeat constructor.
  - apply StronglySorted_inv in S. destruct S as [S F].
    destruct (String.ltb (fst e) (fst x)) eqn:L.
    + apply ltb_true_leb in L. constructor; [now constructor|].
      constructor; [exact L|].
      eapply Forall_impl; [|exact F]. intros y Hy.
      unfold path_le in *. eapply leb_trans; eassumption.
    + apply ltb_false_leb in L. constructor; [now apply IH|].
      eapply Permutation_Forall; [apply insert_by_path_perm|].
      now constructor.
Qed.

Lemma sorted_from_perm (l acc : list entry) :
  Permutation (acc ++ l) (sorted_from acc l).
Proof.
  revert acc. induction l as [|e l IH]; intros acc; simpl.
  - now rewrite app_nil_r.
  - rewrite <- IH, <- insert_by_path_perm.
    symmetry. apply Permutation_middle.
Qed.

Lemma sorted_from_sorted (l acc : list entry) :
  StronglySorted path_le acc -> StronglySorted path_le (sorted_from acc l).
Proof.
  revert acc. induction l as [|e l IH]; intros acc S; simpl; [exact S|].
  apply IH. now apply insert_by_path_sorted.
Qed.

Lemma sorted_perm (l : list entry) : Permutation l (sorted l).
Proof. apply (sorted_from_perm l []). Qed.

Lemma sorted_sorted (l : list entry) : StronglySorted path_le (sorted l).
Proof. apply sorted_from_sorted. constructor. Qed.

Lemma paths_sorted (l : list entry) :
  StronglySorted path_le l ->
  StronglySorted (fun a b => String.leb a b = true) (map fst l).
Proof.
  induction 1 as [|a l S IH F]; simpl; constructor; [exact IH|].
  rewrite Forall_map. exact F.
Qed.

(** The order in which the entries were found does not show in the
    sequence of route paths. *)
Lemma sorted_paths_order_free (l l' : list entry) :
  Permutation l l' -> map fst (sorted l) = map fst (sorted l').
Proof.
  intros P. apply sorted_strings_unique.
  - apply paths_sorted, sorted_sorted.
  - apply paths_sorted, sorted_sorted.
  - apply Permutation_map.
    rewrite <- (sorted_perm l), <- (sorted_perm l'). exact P.
Qed.

Lemma same_path_same_entry (l : list entry) (a b : entry) :
  NoDup (map fst l) -> In a l -> In b l -> fst a = fst b -> a = b.
Proof.
  induction l as [|x l IH]; intros N Ia Ib E; [contradiction|].
  simpl in N. inversion N as [|? ? Nx Nl]; subst.
  destruct Ia as [->|Ia], Ib as [->|Ib]; auto.
  - elim Nx. rewrite E. now apply in_map.
  - elim Nx. rewrite <- E. now apply in_map.
Qed.

Lemma sorted_entries_unique (l1 l2 : list entry) :
  StronglySorted path_le l1 -> StronglySorted path_le l2 ->
  NoDup (map fst l1) -> Permutation l1 l2 -> l1 = l2.
Proof.
  revert l2. induction l1 as [|a l1 IH]; intros l2 S1 S2 N P.
  - now apply Permutation_nil in P.
  - destruct l2 as [|b l2].
    + symmetry in P. now apply Permutation_nil in P.
    + apply StronglySorted_inv in S1. destruct S1 as [S1 F1].
      apply StronglySorted_inv in S2. destruct S2 as [S2 F2].
      assert (Ib : In b (a :: l1))
        by (eapply Permutation_in; [symmetry; exact P | now left]).
      assert (Ia : In a (b :: l2))
        by (eapply Permutation_in; [exact P | now left]).
      assert (E : a = b).
      { apply (same_path_same_entry (a :: l1)); auto; [now left|].
        destruct Ib as [->|Ib]; [reflexivity|].
        destruct Ia as [->|Ia]; [reflexivity|].
        rewrite Forall_forall in F1, F2.
        apply String.leb_antisym; [apply F1 | apply F2]; auto. }
      subst b. f_equal. apply IH; auto.
      * simpl in N. now inversion N.
      * eapply Permutation_cons_inv; exact P.
Qed.

(** With route paths that are all different, it does not show in the
    sequence of entries either. *)
Lemma sorted_order_free (l l' : list entry) :
  NoDup (map fst l) -> Permutation l l' -> sorted l = sorted l'.
Proof.
  intros N P. apply sorted_entries_unique.
  - apply sorted_sorted.
  - apply sorted_sorted.
  - eapply Permutation_NoDup; [|exact N].
    apply Permutation_map, sorted_perm.
  - rewrite <- (sorted_perm l), <- (sorted_perm l'). exact P.
Qed.

Lemma ltb_leb_neq (a b c : string) :
  String.ltb a b = true -> String.leb b c = true -> a <> c.
Proof.
  intros L1 L2 E. subst c.
  assert (L3 := ltb_true_leb _ _ L1).
  assert (E := String.leb_antisym _ _ L3 L2). subst b.
  unfold String.ltb in L1.
  assert (X := proj2 (String_as_OT.cmp_eq a a) eq_refl).
  unfold String_as_OT.cmp in X. rewrite X in L1. discriminate.
Qed.

Lemma insert_by_path_filter_other (k : string) (e : entry) (l : list entry) :
  fst e <> k ->
  filter (fun x => String.eqb (fst x) k) (insert_by_path e l)
  = filter (fun x => String.eqb (fst x) k) l.
Proof.
  intros N. apply String.eqb_neq in N.
  induction l as [|x l IH]; simpl.
  - now rewrite N.
  - destruct (String.ltb (fst e) (fst x)); simpl.
    + now rewrite N.
    + now rewrite IH.
Qed.

Lemma insert_by_path_filter_same (e : entry) (l : list entry) :
  StronglySorted path_le l ->
  filter (fun x => String.eqb (fst x) (fst e)) (insert_by_path e l)
  = filter (fun x => String.eqb (fst x) (fst e)) l ++ [e].
Proof.
  induction l as [|x l IH]; intros S; simpl.
  - now rewrite String.eqb_refl.
  - apply StronglySorted_inv in S. destruct S as [S F].
    destruct (String.ltb (fst e) (fst x)) eqn:L; simpl.
    + rewrite String.eqb_refl.
      assert (Nx : String.eqb (fst x) (fst e) = false).
      { apply String.eqb_neq. intros E.
        apply (ltb_leb_neq _ _ (fst x) L); [apply leb_refl | congruence]. }
      rewrite Nx.
      assert (Nl : filter (fun y => String.eqb (fst y) (fst e)) l = []).
      { clear IH S. induction F as [|y l Hy F IHF]; [reflexivity|].
        simpl. rewrite IHF.
        assert (Ny : String.eqb (fst y) (fst e) = false).
        { apply String.eqb_neq. intros E. symmetry in E.
          exact (ltb_leb_neq _ _ _ L Hy E). }
        now rewrite Ny. }
      now rewrite Nl.
    + rewrite IH by exact S.
      destruct (String.eqb (fst x) (fst e)); reflexivity.
Qed.

Lemma sorted_from_stable (k : string) (l acc : list entry) :
  StronglySorted path_le acc ->
  filter (fun x => String.eqb (fst x) k) (sorted_from acc l)
  = filter (fun x => String.eqb (fst x) k) acc
    ++ filter (fun x => String.eqb (fst x) k) l.
Proof.
  revert acc. induction l as [|e l IH]; intros acc S; simpl.
  - now rewrite app_nil_r.
  - rewrite IH by now apply insert_by_path_sorted.
    destruct (String.eqb_spec (fst e) k) as [E|N].
    + subst k. rewrite insert_by_path_filter_same by exact S.
      now rewrite <- app_assoc.
    + now rewrite insert_by_path_filter_other.
Qed.

(** The sort is stable: the entries with one route path keep the order
    in which they were found.  A sorted sequence with this property is
    unique, so this is the result of any stable sort. *)
Lemma sorted_stable (k : string) (l : list entry) :
  filter (fun x => String.eqb (fst x) k) (sorted l)
  = filter (fun x => String.eqb (fst x) k) l.
Proof. apply (sorted_from_stable k l []). constructor. Qed.

End SortedFacts.

(* ================================================================== *)
(** ** The second loop and the whole of [load_routes] *)
(* ================================================================== *)

Lemma log_run (msg : message) (verbose : bool) (h : heap) :
  log msg verbose h = (Ok tt, h, [Log (if verbose then INFO else DEBUG) msg]).
Proof. now destruct verbose. Qed.

Lemma register_run (app : host) (verbose : bool) (e : entry) (h : heap) :
  register app verbose e h
  = (if accepts app h e then Ok tt else Raised, h, registration_events verbose h [e]).
Proof.
  destruct e as [route_path router]. unfold register.
  erewrite bind_ok by apply log_run. reflexivity.
Qed.

Lemma registration_events_app verbose h (a b : list entry) :
  registration_events verbose h (a ++ b)
  = registration_events verbose h a ++ registration_events verbose h b.
Proof. unfold registration_events. apply flat_map_app. Qed.

(** The second loop goes through the entries in order, up to the end or
    up to the first call that the host does not take; the heap is left
    as it is. *)
Lemma register_loop_run (app : host) (verbose : bool) (entries : list entry)
    (h : heap) :
  exists done rest,
    entries = done ++ rest
    /\ heap_of (forM_ (register app verbose) entries h) = h
    /\ events_of (forM_ (register app verbose) entries h)
       = registration_events verbose h done
    /\ match result_of (forM_ (register app verbose) entries h) with
       | Ok _ => rest = [] /\ Forall (fun e => accepts app h e = true) done
       | Raised =>
           exists before e,
             done = before ++ [e]
             /\ accepts app h e = false
             /\ Forall (fun e => accepts app h e = true) before
       end.
Proof.
  induction entries as [|e entries IH].
  - exists [], []. repeat split. constructor.
  - change (forM_ (register app verbose) (e :: entries) h)
      with (bind (register app verbose e)
                 (fun _ => forM_ (register app verbose) entries) h).
    destruct (accepts app h e) eqn:Ea.
    + erewrite bind_ok by (rewrite register_run, Ea; reflexivity).
      destruct IH as (done & rest & HE & Hh & Hev & Hr).
      exists (e :: done), rest.
      unfold heap_of, result_of, events_of in *. cbn [fst snd] in *.
      split; [now rewrite HE|]. split; [exact Hh|].
      split.
      * rewrite Hev.
        change (e :: done) with ([e] ++ done).
        now rewrite registration_events_app.
      * destruct (fst (fst (forM_ (register app verbose) entries h))).
        -- destruct Hr as [Hrest Hall]. split; [exact Hrest | now constructor].
        -- destruct Hr as (before & e' & Hd & Hrej & Hall).
           exists (e :: before), e'. rewrite Hd. repeat split; try assumption.
           now constructor.
    + erewrite bind_raised by (rewrite register_run, Ea; reflexivity).
      exists [e], entries.
      unfold heap_of, result_of, events_of. cbn [fst snd].
      repeat split. exists [], e. repeat split; [exact Ea | constructor].
Qed.

Lemma registrations_registration_events verbose h entries :
  registrations (registration_events verbose h entries)
  = map (fun e => (snd e, fst e, h (snd e))) entries.
Proof.
  induction entries as [|e entries IH]; [reflexivity|].
  simpl. now rewrite IH.
Qed.

Lemma imports_registration_events verbose h entries :
  imports (registration_events verbose h entries) = [].
Proof. induction entries as [|e entries IH]; [reflexivity | exact IH]. Qed.

(** The run of [load_routes], from the runs of its two loops. *)
Lemma load_routes_run app imp directory t auto_tags verbose h :
  load_routes app imp directory t auto_tags verbose h
  = match collect imp directory t auto_tags verbose h with
    | (Ok entries, h1, tc) =>
        match forM_ (register app verbose) entries h1 with
        | (Ok _, h2, tr) =>
            (Ok tt, h2,
             Log (if verbose then INFO else DEBUG) (LoadingRoutesFrom directory)
             :: tc ++ tr ++ [Log (if verbose then INFO else DEBUG) RoutesLoaded])
        | (Raised, h2, tr) =>
            (Raised, h2,
             Log (if verbose then INFO else DEBUG) (LoadingRoutesFrom directory)
             :: tc ++ tr)
        end
    | (Raised, h1, tc) =>
        (Raised, h1,
         Log (if verbose then INFO else DEBUG) (LoadingRoutesFrom directory) :: tc)
    end.
Proof.
  unfold load_routes.
  erewrite bind_ok by apply log_run.
  destruct (collect imp directory t auto_tags verbose h) as [[[entries|] h1] tc] eqn:E.
  - erewrite bind_ok by exact E.
    destruct (forM_ (register app verbose) entries h1) as [[[u|] h2] tr] eqn:F.
    + erewrite bind_ok by exact F.
      erewrite bind_ok by apply log_run.
      unfold result_of, heap_of, events_of, ret. cbn [fst snd List.app].
      reflexivity.
    + erewrite bind_raised by exact F.
      unfold result_of, heap_of, events_of. cbn [fst snd List.app]. reflexivity.
  - erewrite bind_raised by exact E. reflexivity.
Qed.

Lemma collect_run imp directory t auto_tags verbose h routers :
  result_of (accumulate imp directory t auto_tags verbose h) = Ok routers ->
  result_of (collect imp directory t auto_tags verbose h) = Ok (sorted routers).
Proof.
  unfold collect, bind, ret.
  destruct (accumulate imp directory t auto_tags verbose h) as [[r h1] t1].
  unfold result_of. simpl. now intros ->.
Qed.

Lemma collect_from_accumulate imp directory t auto_tags verbose h :
  collect imp directory t auto_tags verbose h
  = match accumulate imp directory t auto_tags verbose h with
    | (Ok routers, h1, t1) => (Ok (sorted routers), h1, t1)
    | (Raised, h1, t1) => (Raised, h1, t1)
    end.
Proof.
  unfold collect, bind, ret.
  destruct (accumulate imp directory t auto_tags verbose h) as [[[routers|] h1] t1];
    [|reflexivity].
  now rewrite app_nil_r.
Qed.

(** The run of [load_routes], from the run of its first loop. *)
Lemma load_routes_outline app imp directory t auto_tags verbose h :
  match accumulate imp directory t auto_tags verbose h with
  | (Ok routers, h1, t1) =>
      second_loop_outcome app directory verbose (sorted routers) h1 t1
        (load_routes app imp directory t auto_tags verbose h)
  | (Raised, h1, t1) =>
      load_routes app imp directory t auto_tags verbose h
      = (Raised, h1,
         Log (if verbose then INFO else DEBUG) (LoadingRoutesFrom directory) :: t1)
  end.
Proof.
  rewrite load_routes_run, collect_from_accumulate.
  destruct (accumulate imp directory t auto_tags verbose h) as [[[routers|] h1] t1];
    [|reflexivity].
  destruct (register_loop_run app verbose (sorted routers) h1)
    as (done & rest & HE & Hh & Hev & Hr).
  destruct (forM_ (register app verbose) (sorted routers) h1) as [[[u|] h2] tr].
  - unfold heap_of, result_of, events_of in *. cbn [fst snd] in *.
    destruct Hr as [Hrest Hall]. subst h2 tr.
    exists done, rest. split; [exact HE|]. left. now repeat split.
  - unfold heap_of, result_of, events_of in *. cbn [fst snd] in *.
    destruct Hr as (before & e & Hd & Hrej & Hall). subst h2 tr.
    exists done, rest. split; [exact HE|]. right.
    exists before, e. now repeat split.
Qed.

(* ================================================================== *)
(** ** [square_to_curly_brackets] *)
(* ================================================================== *)

Lemma prefix_empty_l (s : string) : String.prefix "" s = true.
Proof. now destruct s. Qed.

Lemma prefix_char (c a : ascii) (s : string) :
  String.prefix (String c "") (String a s) = Ascii.eqb a c.
Proof.
  cbn [String.prefix]. rewrite prefix_empty_l.
  destruct (ascii_dec c a) as [->|N].
  - now rewrite Ascii.eqb_refl.
  - symmetry. apply Ascii.eqb_neq. congruence.
Qed.

(** Replacing a character by a character goes character by character. *)
Lemma replace_char (c d : ascii) (s : string) :
  Str.replace (String c "") (String d "") s
  = map_chars (fun x => if Ascii.eqb x c then d else x) s.
Proof.
  unfold Str.replace. induction s as [|a s IH]; [reflexivity|].
  rewrite replace_from_unfold, prefix_char. cbn [map_chars].
  destruct (Ascii.eqb a c).
  - change (String.length (String c "") - 1) with 0. now rewrite IH.
  - now rewrite IH.
Qed.

Lemma map_chars_compose (f g : ascii -> ascii) (s : string) :
  map_chars g (map_chars f s) = map_chars (fun c => g (f c)) s.
Proof. induction s as [|a s IH]; cbn [map_chars]; [reflexivity | now rewrite IH]. Qed.

Lemma map_chars_ext (f g : ascii -> ascii) (s : string) :
  (forall c, f c = g c) -> map_chars f s = map_chars g s.
Proof.
  intros E. induction s as [|a s IH]; cbn [map_chars]; [reflexivity|].
  now rewrite E, IH.
Qed.

Lemma map_chars_append (f : ascii -> ascii) (a b : string) :
  map_chars f (a ++ b) = (map_chars f a ++ map_chars f b)%string.
Proof. induction a as [|x a IH]; cbn [map_chars append]; [reflexivity | now rewrite IH]. Qed.

Lemma map_chars_length (f : ascii -> ascii) (s : string) :
  String.length (map_chars f s) = String.length s.
Proof. induction s as [|a s IH]; cbn [map_chars String.length]; [reflexivity | now rewrite IH]. Qed.

Lemma square_to_curly_brackets_map (path : string) :
  square_to_curly_brackets path = map_chars curly path.
Proof.
  unfold square_to_curly_brackets.
  change "]" with (String "]"%char "") at 1. change "}" with (String "}"%char "").
  change "[" with (String "["%char ""). change "{" with (String "{"%char "").
  rewrite !replace_char, map_chars_compose. apply map_chars_ext.
  intros c. unfold curly.
  destruct (Ascii.eqb_spec c "[") as [->|N1]; [reflexivity|].
  destruct (Ascii.eqb_spec c "]") as [->|N2]; reflexivity.
Qed.

Lemma map_chars_get (f : ascii -> ascii) (s : string) (i : nat) :
  String.get i (map_chars f s) = option_map f (String.get i s).
Proof.
  revert i. induction s as [|a s IH]; intros i; [reflexivity|].
  destruct i as [|i]; [reflexivity|]. cbn [map_chars String.get]. apply IH.
Qed.

Lemma map_chars_avoids (f : ascii -> ascii) (c : ascii) (s : string) :
  (forall x, f x <> c) -> Str.contains (String c "") (map_chars f s) = false.
Proof.
  intros N. induction s as [|a s IH]; [reflexivity|].
  cbn [map_chars]. apply contains_char_cons; [|exact IH].
  intros E. exact (N a (eq_sym E)).
Qed.

Lemma map_chars_fixes (f : ascii -> ascii) (s : string) :
  (forall c, f c <> c -> Str.contains (String c "") s = false) ->
  map_chars f s = s.
Proof.
  induction s as [|a s IH]; intros H; [reflexivity|].
  cbn [map_chars]. f_equal.
  - destruct (ascii_dec (f a) a) as [E|N]; [exact E|].
    specialize (H a N). apply contains_char_cons_false in H. now destruct H.
  - apply IH. intros c N. specialize (H c N).
    destruct (ascii_dec c a) as [->|Na].
    + apply contains_char_cons_false in H. now destruct H.
    + apply contains_char_cons_false in H. now destruct H.
Qed.

Lemma map_chars_join (f : ascii -> ascii) (sep : string) (l : list string) :
  map_chars f (Str.join sep l) = Str.join (map_chars f sep) (map (map_chars f) l).
Proof.
  unfold Str.join. induction l as [|x l IH]; [reflexivity|].
  destruct l as [|y l]; [reflexivity|].
  change (String.concat sep (x :: y :: l))
    with (x ++ sep ++ String.concat sep (y :: l))%string.
  change (String.concat (map_chars f sep) (map (map_chars f) (x :: y :: l)))
    with (map_chars f x ++ map_chars f sep
          ++ String.concat (map_chars f sep) (map (map_chars f) (y :: l)))%string.
  now rewrite !map_chars_append, IH.
Qed.

Lemma curly_not_open (c : ascii) : curly c <> "["%char.
Proof.
  unfold curly. destruct (Ascii.eqb_spec c "[") as [->|N1]; [discriminate|].
  destruct (Ascii.eqb_spec c "]") as [->|N2]; [discriminate | exact N1].
Qed.

Lemma curly_not_close (c : ascii) : curly c <> "]"%char.
Proof.
  unfold curly. destruct (Ascii.eqb_spec c "[") as [->|N1]; [discriminate|].
  destruct (Ascii.eqb_spec c "]") as [->|N2]; [discriminate | exact N2].
Qed.

Lemma curly_moves (c : ascii) : curly c <> c -> c = "["%char \/ c = "]"%char.
Proof.
  unfold curly. destruct (Ascii.eqb_spec c "[") as [->|N1]; [now left|].
  destruct (Ascii.eqb_spec c "]") as [->|N2]; [now right | congruence].
Qed.

(** X1.  The conversion works position by position: the character at every
    index is the converted character of the input at that index, so the
    length is kept and only brackets change. *)
Theorem square_to_curly_brackets_pointwise (path : string) (i : nat) :
  String.get i (square_to_curly_brackets path)
  = option_map curly (String.get i path).
Proof. rewrite square_to_curly_brackets_map. apply map_chars_get. Qed.

Lemma square_to_curly_brackets_length (path : string) :
  String.length (square_to_curly_brackets path) = String.length path.
Proof. rewrite square_to_curly_brackets_map. apply map_chars_length. Qed.

(** X2.  No square bracket is left in the result, balanced or not. *)
Theorem square_to_curly_brackets_no_square (path : string) :
  Str.contains "[" (square_to_curly_brackets path) = false
  /\ Str.contains "]" (square_to_curly_brackets path) = false.
Proof.
  rewrite square_to_curly_brackets_map. split.
  - apply (map_chars_avoids curly "["%char). apply curly_not_open.
  - apply (map_chars_avoids curly "]"%char). apply curly_not_close.
Qed.

Lemma square_to_curly_brackets_fixes (path : string) :
  Str.contains "[" path = false -> Str.contains "]" path = false ->
  square_to_curly_brackets path = path.
Proof.
  intros H1 H2. rewrite square_to_curly_brackets_map. apply map_chars_fixes.
  intros c N. destruct (curly_moves c N) as [-> | ->]; assumption.
Qed.

(** X3.  Converting twice is converting once: the result has nothing left to
    convert. *)
Theorem square_to_curly_brackets_idempotent (path : string) :
  square_to_curly_brackets (square_to_curly_brackets path)
  = square_to_curly_brackets path.
Proof.
  rewrite !square_to_curly_brackets_map, map_chars_compose.
  apply map_chars_ext. intros c. unfold curly.
  destruct (Ascii.eqb_spec c "[") as [->|N1]; [reflexivity|].
  destruct (Ascii.eqb_spec c "]") as [->|N2]; [reflexivity|].
  apply Ascii.eqb_neq in N1, N2. now rewrite N1, N2.
Qed.

Lemma square_to_curly_brackets_join (l : list string) :
  square_to_curly_brackets (Str.join "/" l)
  = Str.join "/" (map square_to_curly_brackets l).
Proof.
  rewrite square_to_curly_brackets_map, map_chars_join.
  change (map_chars curly "/") with "/".
  f_equal. apply map_ext. intros s. now rewrite square_to_curly_brackets_map.
Qed.

Lemma square_to_curly_brackets_append (a b : string) :
  square_to_curly_brackets (a ++ b)
  = (square_to_curly_brackets a ++ square_to_curly_brackets b)%string.
Proof. rewrite !square_to_curly_brackets_map. apply map_chars_append. Qed.

(* ================================================================== *)
(** ** Splitting the path of a file *)
(* ================================================================== *)

Lemma split_plain (x : string) : plain_name x -> Str.split "/" x = [x].
Proof.
  unfold plain_name. induction x as [|c x IH]; intros H; [reflexivity|].
  apply contains_char_cons_false in H. destruct H as [N H].
  cbn [Str.split]. destruct (Ascii.eqb_spec c "/") as [->|_]; [now elim N|].
  now rewrite IH.
Qed.

Lemma split_append_sep (x rest : string) :
  plain_name x ->
  Str.split "/" (x ++ "/" ++ rest) = x :: Str.split "/" rest.
Proof.
  unfold plain_name. induction x as [|c x IH]; intros H; [reflexivity|].
  apply contains_char_cons_false in H. destruct H as [N H].
  cbn [append Str.split]. destruct (Ascii.eqb_spec c "/") as [->|_]; [now elim N|].
  change (String "/" rest) with ("/" ++ rest)%string. now rewrite IH.
Qed.

Lemma join_cons (sep x y : string) (l : list string) :
  Str.join sep (x :: y :: l) = (x ++ sep ++ Str.join sep (y :: l))%string.
Proof. reflexivity. Qed.

(** Joining names with ["/"] and splitting again gives the names back. *)
Lemma split_join (l : list string) :
  Forall plain_name l -> l <> [] -> Str.split "/" (Str.join "/" l) = l.
Proof.
  induction l as [|x l IH]; intros F N; [congruence|].
  assert (Fx := Forall_inv F). assert (Fl := Forall_inv_tail F).
  destruct l as [|y l].
  - now apply split_plain.
  - rewrite join_cons, split_append_sep by exact Fx.
    f_equal. apply IH; [exact Fl | discriminate].
Qed.

Lemma as_posix_div (root : Path) (file : string) :
  PurePath.as_posix (PurePath.div root file)
  = if absolute root then Str.join "/" ("" :: parts root ++ [file])
    else Str.join "/" (parts root ++ [file]).
Proof.
  unfold PurePath.as_posix, PurePath.div. cbn [absolute parts].
  destruct (absolute root).
  - destruct (parts root ++ [file]) as [|y l] eqn:E; [|reflexivity].
    now destruct (parts root).
  - destruct (parts root ++ [file]) as [|y l] eqn:E; [|reflexivity].
    now destruct (parts root).
Qed.

Lemma slice_drops_ends {A : Type} (x : A) (l : list A) (y : A) :
  slice_1_m1 (x :: l ++ [y]) = l.
Proof. unfold slice_1_m1. cbn [tl]. apply removelast_last. Qed.

Lemma joined_dirs_split (root : Path) (file : string) :
  Forall plain_name (parts root) -> plain_name file ->
  joined_dirs root file
  = Str.join "/" (if absolute root then parts root else tl (parts root)).
Proof.
  intros F Hf. unfold joined_dirs. rewrite as_posix_div.
  assert (F' : Forall plain_name (parts root ++ [file])).
  { apply Forall_app. split; [exact F | now constructor]. }
  destruct (absolute root).
  - rewrite split_join; [|constructor; [reflexivity | exact F'] | discriminate].
    now rewrite slice_drops_ends.
  - destruct (parts root) as [|p ps] eqn:E.
    + rewrite split_join; [reflexivity | exact F' | discriminate].
    + rewrite split_join; [|exact F' | discriminate].
      change ((p :: ps) ++ [file]) with (p :: ps ++ [file]).
      now rewrite slice_drops_ends.
Qed.

(** X5.  The directory part before any replacement: for a relative root the
    first part of the root is dropped by the slice; for an absolute root
    the slice drops the empty string before the leading ["/"], and every
    part of the root stays. *)
Theorem joined_dirs_parts (root : Path) (file : string) :
  Forall plain_name (parts root) -> plain_name file ->
  joined_dirs root file
  = Str.join "/" (if absolute root then parts root else tl (parts root)).
Proof. intros F Hf. now apply joined_dirs_split. Qed.

Lemma joined_dirs_parts_witness :
  joined_dirs (mkPath false ["app"; "api"; "users"]) "route.py" = "api/users".
Proof.
  apply (joined_dirs_parts (mkPath false ["app"; "api"; "users"]) "route.py").
  - repeat constructor.
  - reflexivity.
Defined.

(* ================================================================== *)
(** ** The module name *)
(* ================================================================== *)

Lemma take_drop (i : nat) (s : string) : (Str.take i s ++ Str.drop i s)%string = s.
Proof.
  revert i. induction s as [|c s IH]; intros [|i]; try reflexivity.
  cbn [Str.take Str.drop append]. now rewrite IH.
Qed.

(** A file with the suffix [.py] is its stem followed by [.py]. *)
Lemma suffix_py_stem (file : string) :
  PurePath.suffix file = ".py" -> file = (PurePath.stem file ++ ".py")%string.
Proof.
  unfold PurePath.suffix, PurePath.stem.
  destruct (Str.rfind "." file) as [i|]; [|discriminate].
  destruct ((0 <? i) && (i <? String.length file - 1))%nat; [|discriminate].
  intros E. rewrite <- E. symmetry. apply take_drop.
Qed.

Lemma take_length_append (a b : string) : Str.take (String.length a) (a ++ b) = a.
Proof.
  induction a as [|c a IH]; [now destruct b|].
  cbn [String.length append Str.take]. now rewrite IH.
Qed.

Lemma drop_last_append (a b : string) :
  Str.drop_last (String.length b) (a ++ b) = a.
Proof.
  unfold Str.drop_last. rewrite length_append.
  replace (String.length a + String.length b - String.length b)
    with (String.length a) by lia.
  apply take_length_append.
Qed.

Lemma join_cons_nonempty (sep x : string) (l : list string) :
  l <> [] -> Str.join sep (x :: l) = (x ++ sep ++ Str.join sep l)%string.
Proof. destruct l; [congruence | reflexivity]. Qed.

Lemma join_last_append (sep : string) (l : list string) (x y : string) :
  Str.join sep (l ++ [(x ++ y)%string]) = (Str.join sep (l ++ [x]) ++ y)%string.
Proof.
  induction l as [|a l IH]; [reflexivity|].
  change ((a :: l) ++ [(x ++ y)%string]) with (a :: (l ++ [(x ++ y)%string])).
  change ((a :: l) ++ [x]) with (a :: (l ++ [x])).
  rewrite !join_cons_nonempty by (now destruct l).
  now rewrite IH, !append_assoc.
Qed.

Lemma replace_slash_join (l : list string) :
  Forall plain_name l ->
  Str.replace "/" "." (Str.join "/" l) = Str.join "." l.
Proof.
  intros F. change "/" with (String "/"%char "") at 1.
  change "." with (String "."%char "") at 1.
  rewrite replace_char, map_chars_join.
  change (map_chars (fun x => if Ascii.eqb x "/" then "."%char else x) "/")
    with ".".
  f_equal. rewrite <- (map_id l) at 2. apply map_ext_in.
  intros s Hs. apply map_chars_fixes. intros c N.
  rewrite Forall_forall in F. specialize (F s Hs). unfold plain_name in F.
  destruct (Ascii.eqb_spec c "/") as [E|E]; [|congruence].
  now rewrite E.
Qed.

(** X6.  The name handed to [import_module] is the parts of the root and the
    stem of the file joined by dots, with a dot in front when the root is
    absolute. *)
Theorem module_name_dotted (root : Path) (file : string) :
  Forall plain_name (parts root) -> plain_name file ->
  PurePath.suffix file = ".py" ->
  module_name root file
  = ((if absolute root then "." else "")
     ++ Str.join "." (parts root ++ [PurePath.stem file]))%string.
Proof.
  intros F Hf Hs. unfold module_name. rewrite as_posix_div.
  assert (F' : Forall plain_name (parts root ++ [file])).
  { apply Forall_app. split; [exact F | now constructor]. }
  assert (N : parts root ++ [file] <> []) by (now destruct (parts root)).
  assert (E : Str.join "." (parts root ++ [file])
              = (Str.join "." (parts root ++ [PurePath.stem file]) ++ ".py")%string).
  { rewrite (suffix_py_stem file Hs) at 1. apply join_last_append. }
  destruct (absolute root).
  - rewrite replace_slash_join by (constructor; [reflexivity | exact F']).
    rewrite join_cons_nonempty by exact N. rewrite E.
    change ("" ++ "." ++ Str.join "." (parts root ++ [PurePath.stem file]) ++ ".py")%string
      with ("." ++ Str.join "." (parts root ++ [PurePath.stem file]) ++ ".py")%string.
    rewrite <- append_assoc.
    apply (drop_last_append _ ".py").
  - rewrite replace_slash_join by exact F'. rewrite E.
    apply (drop_last_append _ ".py").
Qed.

Lemma module_name_dotted_witness :
  module_name (mkPath true ["srv"; "api"; "users"]) "[user_id].py"
  = ".srv.api.users.[user_id]".
Proof.
  apply (module_name_dotted (mkPath true ["srv"; "api"; "users"]) "[user_id].py").
  - repeat constructor.
  - reflexivity.
  - reflexivity.
Defined.

(* ================================================================== *)
(** ** [walk] *)
(* ================================================================== *)

Lemma walk_plain (t : tree) :
  forall top root files,
    plain_tree t ->
    In (root, files) (walk top t) ->
    absolute root = absolute top
    /\ Forall plain_name files
    /\ exists subs, parts root = parts top ++ subs /\ Forall plain_name subs.
Proof.
  induction t as [ | fs subdirs IH | | d sub IHsub rest IHrest]
    using tree_forest_ind
    with (P0 := fun f => forall top root files,
                  plain_forest f ->
                  In (root, files) (walk_forest top f) ->
                  absolute root = absolute top
                  /\ Forall plain_name files
                  /\ exists subs, parts root = parts top ++ subs
                                  /\ Forall plain_name subs);
    intros top root files W H.
  - contradiction.
  - cbn [plain_tree] in W. destruct W as [Wf Ws].
    cbn [walk] in H. destruct H as [E|H].
    + injection E as <- <-. split; [reflexivity|]. split; [exact Wf|].
      exists []. split; [now rewrite app_nil_r | constructor].
    + now apply IH.
  - contradiction.
  - cbn [plain_forest] in W. destruct W as (Wd & Wsub & Wrest).
    cbn [walk_forest] in H. apply in_app_or in H. destruct H as [H|H].
    + destruct (IHsub _ _ _ Wsub H) as (Ha & Hf & subs & Hp & Hs).
      split; [exact Ha|]. split; [exact Hf|].
      exists (d :: subs). split.
      * rewrite Hp. cbn [PurePath.div parts]. now rewrite <- app_assoc.
      * now constructor.
    + now apply IHrest.
Qed.

(** A directory of the tree is an item of the walk, whatever the names of
    the directories above it. *)
Lemma lookup_dir_walk (f : forest) (d : string) (sub : tree) (top : Path) :
  lookup_dir f d = Some sub ->
  incl (walk (PurePath.div top d) sub) (walk_forest top f).
Proof.
  induction f as [|d' sub' rest IH]; intros H; [discriminate|].
  cbn [lookup_dir] in H. cbn [walk_forest].
  destruct (String.eqb_spec d' d) as [->|_].
  - injection H as ->. apply incl_appl, incl_refl.
  - apply incl_appr, IH, H.
Qed.

Lemma walk_subtree (subs : list string) :
  forall (t : tree) (top : Path) (files : list string) (subdirs : forest),
    subtree subs t = Some (Dir files subdirs) ->
    In (extend top subs, files) (walk top t).
Proof.
  induction subs as [|d subs IH]; intros t top files subdirs H.
  - cbn [subtree] in H. injection H as ->. now left.
  - cbn [subtree] in H. destruct t as [|fs f]; [discriminate|].
    destruct (lookup_dir f d) as [sub|] eqn:El; [|discriminate].
    cbn [walk]. right. apply (lookup_dir_walk f d sub top El).
    exact (IH sub (PurePath.div top d) files subdirs H).
Qed.

(* ================================================================== *)
(** ** The first loop as a comprehension *)
(* ================================================================== *)

Section Comprehension.

Variable imp : importer.
Variable directory : Path.
Variables auto_tags verbose : bool.

(** What one turn of the inner loop does, case by case. *)
Lemma process_file_cases (root : Path) (routers : list entry) (file : string)
    (h : heap) :
  process_file imp directory auto_tags verbose root routers file h
  = if passes_filters file
    then match imp (module_name root file) with
         | ImportRaises => (Raised, h, [ImportModule (module_name root file)])
         | Imported None =>
             (Ok routers, h,
              [ImportModule (module_name root file);
               Log (if verbose then INFO else DEBUG)
                   (NoRouterIn (PurePath.div root file))])
         | Imported (Some router) =>
             (Ok (routers ++ [(route_path_of directory root file, router)]),
              add_tags directory auto_tags h
                [(route_path_of directory root file, router)],
              [ImportModule (module_name root file)])
         end
    else (Ok routers, h,
          if Str.startswith file "__"
             || negb (String.eqb (PurePath.suffix file) ".py")
          then []
          else [Log (if verbose then INFO else DEBUG)
                    (SkippingMisspelled (PurePath.stem file) root)]).
Proof.
  unfold process_file, passes_filters.
  destruct (Str.startswith file "__"
            || negb (String.eqb (PurePath.suffix file) ".py")); [reflexivity|].
  destruct (Str.contains "route" (PurePath.stem file)
            && negb (String.eqb (PurePath.stem file) "route")).
  - cbn [negb andb]. erewrite bind_ok by apply log_run. reflexivity.
  - cbn [negb andb]. unfold bind at 1, import_router.
    destruct (imp (module_name root file)) as [|[router|]].
    + reflexivity.
    + destruct auto_tags; reflexivity.
    + erewrite bind_ok by apply log_run. reflexivity.
Qed.

End Comprehension.

Lemma add_tags_app directory auto_tags h (a b : list entry) :
  add_tags directory auto_tags (add_tags directory auto_tags h a) b
  = add_tags directory auto_tags h (a ++ b).
Proof. unfold add_tags. destruct auto_tags; [|reflexivity]. now rewrite fold_left_app. Qed.

Lemma add_tags_nil directory auto_tags h : add_tags directory auto_tags h [] = h.
Proof. unfold add_tags. now destruct auto_tags. Qed.

Section Progress.

Variable imp : importer.
Variable directory : Path.
Variables auto_tags verbose : bool.

Local Abbreviation progress' := (progress imp directory auto_tags).

Lemma progress_ret routers h : progress' [] [] routers h (ret routers h).
Proof.
  exists [], [], []. unfold ret, heap_of, result_of, events_of. cbn [fst snd imports].
  rewrite add_tags_nil, app_nil_r.
  repeat split; try (now rewrite app_nil_r); constructor.
Qed.

(** Two loops one after the other. *)
Lemma progress_bind (m : M (list entry)) (f : list entry -> M (list entry))
    (E1 E2 : list entry) (I1 I2 : list string) routers h :
  progress' E1 I1 routers h (m h) ->
  (forall routers' h', progress' E2 I2 routers' h' (f routers' h')) ->
  progress' (E1 ++ E2) (I1 ++ I2) routers h (bind m f h).
Proof.
  intros (d1 & re1 & ri1 & HE1 & HI1 & Hh1 & Hg1 & Hr1) Hf.
  unfold bind. destruct (m h) as [[[rs1|] h1] t1];
    unfold heap_of, result_of, events_of in *; cbn [fst snd] in *.
  - destruct Hr1 as (Hrs & Hre & Hri & Hok1). subst re1 ri1.
    rewrite app_nil_r in HE1, HI1. subst d1.
    destruct (Hf rs1 h1) as (d2 & re2 & ri2 & HE2 & HI2 & Hh2 & Hg2 & Hr2).
    destruct (f rs1 h1) as [[r2 h2] t2].
    unfold heap_of, result_of, events_of in *; cbn [fst snd] in *.
    exists (E1 ++ d2), re2, ri2.
    unfold heap_of, result_of, events_of; cbn [fst snd].
    rewrite imports_app, registrations_app, Hg1, Hg2, <- !app_assoc.
    split; [now rewrite HE2|]. split; [now rewrite HI1, HI2|].
    split; [now rewrite Hh2, Hh1, add_tags_app|]. split; [reflexivity|].
    destruct r2 as [rs2|].
    + destruct Hr2 as (Hrs2 & Hre2 & Hri2 & Hok2).
      rewrite Hrs2, Hrs, <- app_assoc. repeat split; try assumption.
      apply Forall_app. now split.
    + destruct Hr2 as (before & name & Hb & Hn & Hok2).
      exists (imports t1 ++ before), name. rewrite Hb, <- app_assoc.
      repeat split; try assumption. apply Forall_app. now split.
  - exists d1, (re1 ++ E2), (ri1 ++ I2).
    rewrite HE1, HI1, <- !app_assoc. repeat split; assumption.
Qed.

Lemma progress_foldM {B : Type} (f : list entry -> B -> M (list entry))
    (E : B -> list entry) (I : B -> list string) :
  (forall b routers h, progress' (E b) (I b) routers h (f routers b h)) ->
  forall l routers h,
    progress' (flat_map E l) (flat_map I l) routers h (foldM f routers l h).
Proof.
  intros Hf. induction l as [|b l IH]; intros routers h.
  - apply progress_ret.
  - cbn [flat_map foldM]. apply progress_bind; [apply Hf | apply IH].
Qed.

Lemma progress_process_file root routers file h :
  progress' (file_entries imp directory root file) (file_imports root file)
    routers h (process_file imp directory auto_tags verbose root routers file h).
Proof.
  rewrite process_file_cases. unfold file_entries, file_imports.
  assert (Hone : forall name, imp name <> ImportRaises ->
                   Forall (fun n => imp n <> ImportRaises) [name])
    by (intros; now repeat constructor).
  destruct (passes_filters file).
  - destruct (imp (module_name root file)) as [|[router|]] eqn:Ei.
    + exists [], [], []. unfold progress, heap_of, result_of, events_of.
      cbn [fst snd imports registrations app]. rewrite add_tags_nil.
      repeat split.
      exists [], (module_name root file). repeat split; [exact Ei | constructor].
    + exists [(route_path_of directory root file, router)], [], [].
      unfold heap_of, result_of, events_of.
      cbn [fst snd imports registrations app]. repeat split.
      apply Hone. congruence.
    + exists [], [], []. unfold heap_of, result_of, events_of.
      cbn [fst snd imports registrations app]. rewrite add_tags_nil, app_nil_r.
      repeat split; try (now rewrite app_nil_r). apply Hone. congruence.
  - exists [], [], []. unfold heap_of, result_of, events_of.
    cbn [fst snd]. rewrite add_tags_nil, app_nil_r.
    destruct (_ || _); cbn [imports registrations]; repeat split;
      try (now rewrite app_nil_r); constructor.
Qed.

Lemma progress_process_dir routers item h :
  progress' (dir_entries imp directory item) (dir_imports item)
    routers h (process_dir imp directory auto_tags verbose routers item h).
Proof.
  destruct item as [root files]. unfold process_dir, dir_entries, dir_imports.
  cbn [fst snd]. destruct (Str.startswith (PurePath.name root) "__").
  - apply progress_ret.
  - apply progress_foldM. intros. apply progress_process_file.
Qed.

Lemma progress_accumulate t h :
  progress' (tree_entries imp directory t) (tree_imports directory t) [] h
    (accumulate imp directory t auto_tags verbose h).
Proof.
  unfold accumulate, tree_entries, tree_imports.
  apply progress_foldM. intros. apply progress_process_dir.
Qed.

End Progress.

Lemma add_tags_at directory (es : list entry) :
  forall (h : heap) (r : router_ref),
    add_tags directory true h es r
    = h r ++ map (fun e => tag_of directory (fst e))
               (filter (fun e => Nat.eqb (snd e) r) es).
Proof.
  unfold add_tags. induction es as [|e es IH]; intros h r.
  - cbn. now rewrite app_nil_r.
  - cbn [fold_left]. rewrite IH. unfold set_tags at 1.
    rewrite (Nat.eqb_sym r (snd e)).
    change (filter (fun x => Nat.eqb (snd x) r) (e :: es))
      with (if Nat.eqb (snd e) r
            then e :: filter (fun x => Nat.eqb (snd x) r) es
            else filter (fun x => Nat.eqb (snd x) r) es).
    destruct (Nat.eqb (snd e) r) eqn:E.
    + apply Nat.eqb_eq in E. cbn [map]. rewrite E, <- app_assoc. reflexivity.
    + reflexivity.
Qed.

(** Where an entry of the tree comes from. *)
Lemma tree_entries_origin imp directory t (e : entry) :
  In e (tree_entries imp directory t) ->
  exists root files file,
    In (root, files) (walk directory t)
    /\ In file files
    /\ Str.startswith (PurePath.name root) "__" = false
    /\ passes_filters file = true
    /\ imp (module_name root file) = Imported (Some (snd e))
    /\ fst e = route_path_of directory root file.
Proof.
  unfold tree_entries. intros H. apply in_flat_map in H.
  destruct H as ([root files] & Hw & H). unfold dir_entries in H. cbn [fst snd] in H.
  destruct (Str.startswith (PurePath.name root) "__") eqn:Ed; [contradiction|].
  apply in_flat_map in H. destruct H as (file & Hf & H).
  unfold file_entries in H. destruct (passes_filters file) eqn:Ep; [|contradiction].
  destruct (imp (module_name root file)) as [|[router|]] eqn:Ei; try contradiction.
  destruct H as [<-|[]]. exists root, files, file. repeat split; assumption.
Qed.

Lemma tree_imports_origin directory t (name : string) :
  In name (tree_imports directory t) ->
  exists root files file,
    In (root, files) (walk directory t)
    /\ In file files
    /\ Str.startswith (PurePath.name root) "__" = false
    /\ passes_filters file = true
    /\ name = module_name root file.
Proof.
  unfold tree_imports. intros H. apply in_flat_map in H.
  destruct H as ([root files] & Hw & H). unfold dir_imports in H. cbn [fst snd] in H.
  destruct (Str.startswith (PurePath.name root) "__") eqn:Ed; [contradiction|].
  apply in_flat_map in H. destruct H as (file & Hf & H).
  unfold file_imports in H. destruct (passes_filters file) eqn:Ep; [|contradiction].
  destruct H as [<-|[]]. exists root, files, file. repeat split; assumption.
Qed.

(** What a run of [load_routes] leaves, in terms of the entries and the
    modules of the tree: the tags of the entries [added], the first ones
    of the tree; the imports, the first ones of the tree; and the
    registrations of the entries [registered], which are none unless the
    first loop ran to its end and then are the first ones of the sorted
    entries.  A run that returns has done all of it. *)
Lemma run_shape app imp directory t auto_tags verbose h :
  exists added rest_entries rest_imports registered rest_registered,
    tree_entries imp directory t = added ++ rest_entries
    /\ tree_imports directory t
       = imports (events_of (load_routes app imp directory t auto_tags verbose h))
         ++ rest_imports
    /\ heap_of (load_routes app imp directory t auto_tags verbose h)
       = add_tags directory auto_tags h added
    /\ registrations (events_of (load_routes app imp directory t auto_tags verbose h))
       = map (fun e =>
                (snd e, fst e,
                 heap_of (load_routes app imp directory t auto_tags verbose h) (snd e)))
             registered
    /\ (registered = []
        \/ (rest_entries = [] /\ rest_imports = []
            /\ sorted (tree_entries imp directory t) = registered ++ rest_registered))
    /\ (result_of (load_routes app imp directory t auto_tags verbose h) = Ok tt ->
        rest_entries = [] /\ rest_imports = []
        /\ registered = sorted (tree_entries imp directory t)).
Proof.
  assert (O := load_routes_outline app imp directory t auto_tags verbose h).
  destruct (progress_accumulate imp directory auto_tags verbose t h)
    as (done & re & ri & HE & HI & Hh & Hg & Hr).
  destruct (accumulate imp directory t auto_tags verbose h) as [[[routers|] h1] t1];
    unfold result_of, heap_of, events_of in *; cbn [fst snd] in *.
  - destruct Hr as (Hrs & Hre & Hri & _). cbn [List.app] in Hrs. subst re ri routers.
    rewrite app_nil_r in HE, HI. subst done.
    destruct O as (reg & rest & Hs & [(Hrest & _ & ->) | (b & e & _ & _ & _ & ->)]).
    + subst rest. rewrite app_nil_r in Hs. subst reg.
      exists (tree_entries imp directory t), [], [],
             (sorted (tree_entries imp directory t)), [].
      cbn [fst snd imports registrations].
      rewrite !imports_app, !registrations_app, Hg, imports_registration_events,
        registrations_registration_events, !app_nil_r. cbn [List.app].
      rewrite <- HI, Hh. repeat split. right. now repeat split.
    + exists (tree_entries imp directory t), [], [], reg, rest.
      cbn [fst snd imports registrations].
      rewrite !imports_app, !registrations_app, Hg, imports_registration_events,
        registrations_registration_events, !app_nil_r. cbn [List.app].
      rewrite <- HI, Hh. repeat split; try discriminate. right. now repeat split.
  - rewrite O. exists done, re, ri, [], [].
    cbn [fst snd imports registrations map]. rewrite Hg.
    repeat split; try assumption; try discriminate. now left.
Qed.

(* ================================================================== *)
(** ** Outcome of a run *)
(* ================================================================== *)

(** X11.  A module that cannot be imported is never passed over: when
    [import_module] raises for the module of some file that gets past
    the filters, in a directory that is not skipped, [load_routes]
    raises, whatever the host does, and it has registered nothing. *)
Theorem import_failure_aborts app imp directory t auto_tags verbose h name :
  In name (tree_imports directory t) -> imp name = ImportRaises ->
  result_of (load_routes app imp directory t auto_tags verbose h) = Raised
  /\ registrations (events_of (load_routes app imp directory t auto_tags verbose h))
     = [].
Proof.
  intros Hin Hn.
  assert (O := load_routes_outline app imp directory t auto_tags verbose h).
  destruct (progress_accumulate imp directory auto_tags verbose t h)
    as (done & re & ri & HE & HI & Hh & Hg & Hr).
  destruct (accumulate imp directory t auto_tags verbose h) as [[[routers|] h1] t1];
    unfold result_of, heap_of, events_of in *; cbn [fst snd] in *.
  - destruct Hr as (_ & _ & Hri & Hok). subst ri. rewrite app_nil_r in HI.
    rewrite HI in Hin. rewrite Forall_forall in Hok. now elim (Hok name Hin).
  - rewrite O. cbn [fst snd registrations]. now split.
Qed.

Lemma import_failure_aborts_witness :
  result_of (load_routes accepting broken_module app_api docstring_tree
               true false no_tags) = Raised
  /\ registrations
       (events_of (load_routes accepting broken_module app_api docstring_tree
                     true false no_tags)) = [].
Proof.
  apply (import_failure_aborts accepting broken_module app_api docstring_tree
           true false no_tags "app.api.users.[user_id]").
  - vm_compute. right. now left.
  - reflexivity.
Defined.

(** X12.  When [load_routes] returns, it has registered one router for
    each file that gets past the filters and has a router, no other, in
    the order of the route paths, each with the tags it has once all
    tags of the run are appended. *)
Theorem load_routes_registers_tree_entries app imp directory t auto_tags verbose h :
  result_of (load_routes app imp directory t auto_tags verbose h) = Ok tt ->
  registrations (events_of (load_routes app imp directory t auto_tags verbose h))
  = map (fun e =>
           (snd e, fst e,
            add_tags directory auto_tags h (tree_entries imp directory t) (snd e)))
        (sorted (tree_entries imp directory t)).
Proof.
  intros Hok.
  destruct (run_shape app imp directory t auto_tags verbose h)
    as (added & re & ri & reg & rr & HE & HI & Hh & Hreg & _ & Hret).
  destruct (Hret Hok) as (-> & _ & ->). rewrite app_nil_r in HE. subst added.
  now rewrite Hreg, Hh.
Qed.

Lemma load_routes_registers_tree_entries_witness :
  registrations
    (events_of (load_routes fastapi router_per_module app_api docstring_tree
                  true false no_tags))
  = map (fun e =>
           (snd e, fst e,
            add_tags app_api true no_tags
              (tree_entries router_per_module app_api docstring_tree) (snd e)))
        (sorted (tree_entries router_per_module app_api docstring_tree)).
Proof.
  apply (load_routes_registers_tree_entries
           fastapi router_per_module app_api docstring_tree true false no_tags).
  reflexivity.
Defined.

(** X13.  The modules are imported in the order of the walk, each file that
    gets past the filters once and no other file: what has been imported
    when the run ends is the beginning of that sequence, and all of it
    when the run returns. *)
Theorem imports_follow_walk app imp directory t auto_tags verbose h :
  exists rest,
    tree_imports directory t
    = imports (events_of (load_routes app imp directory t auto_tags verbose h)) ++ rest
    /\ (result_of (load_routes app imp directory t auto_tags verbose h) = Ok tt ->
        rest = []).
Proof.
  destruct (run_shape app imp directory t auto_tags verbose h)
    as (added & re & ri & reg & rr & HE & HI & Hh & Hreg & _ & Hret).
  exists ri. split; [exact HI|]. intros Hok. now destruct (Hret Hok) as (_ & -> & _).
Qed.

(** X14.  The tags of a router after a run, returned or raised, are its tags
    before the run followed by tags derived from entries of the tree
    that have this router; nothing is removed or reordered, nothing is
    added without [auto_tags], and nothing is added to a router that the
    importer gives for no module. *)
Theorem tags_only_appended app imp directory t auto_tags verbose h router :
  exists extra,
    heap_of (load_routes app imp directory t auto_tags verbose h) router
    = h router ++ extra
    /\ Forall (fun tag =>
                 exists e, In e (tree_entries imp directory t)
                           /\ snd e = router
                           /\ tag = tag_of directory (fst e)) extra
    /\ (auto_tags = false -> extra = [])
    /\ ((forall name, imp name <> Imported (Some router)) -> extra = []).
Proof.
  destruct (run_shape app imp directory t auto_tags verbose h)
    as (done & rest & ri & reg & rr & HE & HI & Hh & Hreg & _ & Hret).
  rewrite Hh.
  destruct auto_tags.
  - rewrite add_tags_at.
    set (mine := filter (fun e => Nat.eqb (snd e) router) done).
    assert (Hm : forall e, In e mine ->
                   In e (tree_entries imp directory t) /\ snd e = router).
    { intros e He. apply filter_In in He. destruct He as [He Hr].
      split; [rewrite HE; apply in_or_app; now left | now apply Nat.eqb_eq]. }
    exists (map (fun e => tag_of directory (fst e)) mine).
    split; [reflexivity|]. split; [|split; [discriminate|]].
    + apply Forall_forall. intros tag Ht. apply in_map_iff in Ht.
      destruct Ht as (e & <- & He). exists e.
      destruct (Hm e He). now repeat split.
    + intros Hno. destruct mine as [|e mine']; [reflexivity|].
      destruct (Hm e (or_introl eq_refl)) as [Hin Hr].
      destruct (tree_entries_origin _ _ _ _ Hin)
        as (root & files & file & _ & _ & _ & _ & Hi & _).
      exfalso. apply (Hno (module_name root file)). rewrite <- Hr. exact Hi.
  - exists []. unfold add_tags. rewrite app_nil_r. repeat split. constructor.
Qed.

(** X15.  After a run that returned, the tags of a router are its tags before
    the run followed, with [auto_tags], by one tag for each entry of the
    tree that has this router, in the order of the walk. *)
Theorem tags_after_return app imp directory t auto_tags verbose h router :
  result_of (load_routes app imp directory t auto_tags verbose h) = Ok tt ->
  heap_of (load_routes app imp directory t auto_tags verbose h) router
  = h router
    ++ (if auto_tags
        then map (fun e => tag_of directory (fst e))
               (filter (fun e => Nat.eqb (snd e) router)
                  (tree_entries imp directory t))
        else []).
Proof.
  intros Hok.
  destruct (run_shape app imp directory t auto_tags verbose h)
    as (done & rest & ri & reg & rr & HE & HI & Hh & Hreg & _ & Hret).
  destruct (Hret Hok) as (-> & _ & _). rewrite app_nil_r in HE. subst done.
  rewrite Hh. destruct auto_tags.
  - apply add_tags_at.
  - unfold add_tags. now rewrite app_nil_r.
Qed.

Lemma tags_after_return_witness :
  heap_of (load_routes accepting one_router app_api docstring_tree true false no_tags) 0
  = no_tags 0
    ++ map (fun e => tag_of app_api (fst e))
         (filter (fun e => Nat.eqb (snd e) 0)
            (tree_entries one_router app_api docstring_tree)).
Proof.
  apply (tags_after_return accepting one_router app_api docstring_tree
           true false no_tags 0).
  reflexivity.
Defined.

(** X20.  [load_routes] returns exactly when no module of a file that
    gets past the filters fails to import and the host takes every call
    of the second loop: the call for each entry of the tree, with the
    route path as prefix and the tags that the router has once all tags
    of the run are appended. *)
Theorem load_routes_returns_iff app imp directory t auto_tags verbose h :
  result_of (load_routes app imp directory t auto_tags verbose h) = Ok tt
  <-> (Forall (fun name => imp name <> ImportRaises) (tree_imports directory t)
       /\ Forall
            (fun e =>
               app (snd e) (fst e)
                 (add_tags directory auto_tags h (tree_entries imp directory t)
                    (snd e))
               = true)
            (sorted (tree_entries imp directory t))).
Proof.
  assert (O := load_routes_outline app imp directory t auto_tags verbose h).
  destruct (progress_accumulate imp directory auto_tags verbose t h)
    as (done & re & ri & HE & HI & Hh & Hg & Hr).
  destruct (accumulate imp directory t auto_tags verbose h) as [[[routers|] h1] t1];
    unfold result_of, heap_of, events_of in *; cbn [fst snd] in *.
  - destruct Hr as (Hrs & -> & -> & Hok). cbn [List.app] in Hrs. subst routers.
    rewrite app_nil_r in HE, HI. subst done. rewrite <- HI in Hok. subst h1.
    destruct O as (reg & rest & Hs & [(Hrest & Hall & ->) | (b & e & Hd & Hrej & _ & ->)]).
    + subst rest. rewrite app_nil_r in Hs. subst reg.
      cbn [fst]. split; [|reflexivity]. intros _. split; [exact Hok | exact Hall].
    + cbn [fst]. split; [discriminate|]. intros [_ Hall]. exfalso.
      rewrite Forall_forall in Hall.
      assert (Hin : In e (sorted (tree_entries imp directory t))).
      { rewrite Hs, Hd. apply in_or_app. left. apply in_or_app. right. now left. }
      unfold accepts in Hrej. rewrite (Hall e Hin) in Hrej. discriminate.
  - rewrite O. cbn [fst]. split; [discriminate|]. intros [Hall _]. exfalso.
    destruct Hr as (before & name & Hb & Hn & _).
    rewrite Forall_forall in Hall. apply (Hall name); [|exact Hn].
    rewrite HI, Hb. apply in_or_app. left. apply in_or_app. right. now left.
Qed.

Lemma load_routes_returns_iff_witness :
  result_of (load_routes fastapi router_per_module app_api docstring_tree
               true false no_tags) = Ok tt.
Proof.
  apply (proj2 (load_routes_returns_iff fastapi router_per_module app_api
                  docstring_tree true false no_tags)).
  split.
  - repeat (constructor; [discriminate|]). constructor.
  - repeat (constructor; [reflexivity|]). constructor.
Defined.

(* ================================================================== *)
(** ** Route paths under a root given by two parts *)
(* ================================================================== *)

Lemma plain_name_first (c : ascii) (s : string) :
  plain_name (String c s) -> c <> "/"%char.
Proof.
  unfold plain_name. intros H. apply contains_char_cons_false in H.
  destruct H as [N _]. congruence.
Qed.

Lemma replace_name_first (name rest : string) :
  name <> "" -> Str.replace name "" (name ++ rest) = Str.replace name "" rest.
Proof.
  intros N. unfold Str.replace. destruct name as [|c n] eqn:E; [congruence|].
  rewrite <- E. rewrite replace_from_hit by (rewrite E; discriminate).
  reflexivity.
Qed.

Lemma replace_after_slash (name rest : string) :
  name <> "" -> plain_name name ->
  Str.replace name "" ("/" ++ rest) = ("/" ++ Str.replace name "" rest)%string.
Proof.
  intros N P. unfold Str.replace. destruct name as [|c n]; [congruence|].
  apply plain_name_first in P.
  change ("/" ++ rest)%string with (String "/" rest).
  rewrite replace_from_miss; [reflexivity|].
  cbn [String.prefix]. destruct (ascii_dec c "/"); [contradiction | reflexivity].
Qed.

Lemma replace_name_alone (name : string) :
  name <> "" -> Str.replace name "" name = "".
Proof.
  intros N. rewrite <- (append_empty_r name) at 2.
  rewrite replace_name_first by exact N.
  unfold Str.replace. now destruct name.
Qed.

(** Taking the root's name out of a joined string that starts with it. *)
Lemma strip_leading_name (name : string) (subs : list string) :
  plain_name name -> name <> "" ->
  Str.contains "[" name = false -> Str.contains "]" name = false ->
  Str.replace name "" (square_to_curly_brackets (Str.join "/" (name :: subs)))
  = match subs with
    | [] => ""
    | _ => ("/" ++ Str.replace name ""
                     (square_to_curly_brackets (Str.join "/" subs)))%string
    end.
Proof.
  intros Pn N B1 B2. destruct subs as [|s ss].
  - change (Str.join "/" [name]) with name.
    rewrite square_to_curly_brackets_fixes by assumption.
    now apply replace_name_alone.
  - rewrite join_cons, !square_to_curly_brackets_append.
    rewrite (square_to_curly_brackets_fixes name) by assumption.
    change (square_to_curly_brackets "/") with "/".
    rewrite replace_name_first by exact N.
    now rewrite replace_after_slash.
Qed.

Lemma dir_route_path_under_two_parts (first name : string) (subs : list string)
    (file : string) :
  plain_name first -> plain_name name -> name <> "" ->
  Str.contains "[" name = false -> Str.contains "]" name = false ->
  Forall plain_name subs -> plain_name file ->
  dir_route_path (mkPath false [first; name])
    (mkPath false ([first; name] ++ subs)) file
  = match subs with
    | [] => ""
    | _ => ("/" ++ Str.replace name ""
                     (square_to_curly_brackets (Str.join "/" subs)))%string
    end.
Proof.
  intros Pf Pn N B1 B2 Ps Pfile. unfold dir_route_path.
  rewrite joined_dirs_split; [|now repeat constructor | exact Pfile].
  cbn [absolute parts app tl].
  change (PurePath.name (mkPath false [first; name])) with name.
  now apply strip_leading_name.
Qed.

(** X8.  For a root directory passed as a relative path of two parts, such as
    [app/api], with a name free of brackets: the directory part of the
    route path is empty for the files of the root directory itself, and
    for the files of a directory below it is ["/"] followed by the
    converted parts below the root, joined by ["/"], from which the
    occurrences of the root's name have been taken out. *)
Theorem dir_route_path_two_part_root (first name : string) (subs : list string)
    (file : string) :
  plain_name first -> plain_name name -> name <> "" ->
  Str.contains "[" name = false -> Str.contains "]" name = false ->
  Forall plain_name subs -> plain_name file ->
  dir_route_path (mkPath false [first; name])
    (mkPath false ([first; name] ++ subs)) file
  = match subs with
    | [] => ""
    | _ => ("/" ++ Str.replace name ""
                     (square_to_curly_brackets (Str.join "/" subs)))%string
    end.
Proof. intros. now apply dir_route_path_under_two_parts. Qed.

Lemma dir_route_path_two_part_root_witness :
  dir_route_path (mkPath false ["app"; "api"])
    (mkPath false (["app"; "api"] ++ ["users"; "[user_id]"])) "profile.py"
  = ("/" ++ Str.replace "api" ""
              (square_to_curly_brackets (Str.join "/" ["users"; "[user_id]"])))%string.
Proof.
  apply (dir_route_path_two_part_root "app" "api" ["users"; "[user_id]"] "profile.py");
    try reflexivity; try discriminate; repeat constructor.
Defined.

(** X7.  For a root directory passed as a relative path of one part, such as
    [routes], that part is dropped by the slice: the directory part of
    the route path is the converted parts below the root joined by
    ["/"], with the occurrences of the root's name taken out, and no
    ["/"] is put in front. *)
Theorem dir_route_path_one_part_root (name : string) (subs : list string)
    (file : string) :
  plain_name name -> Forall plain_name subs -> plain_name file ->
  dir_route_path (mkPath false [name]) (mkPath false (name :: subs)) file
  = Str.replace name "" (Str.join "/" (map square_to_curly_brackets subs)).
Proof.
  intros Pn Ps Pfile. unfold dir_route_path.
  rewrite joined_dirs_split; [|now constructor | exact Pfile].
  cbn [absolute parts tl].
  change (PurePath.name (mkPath false [name])) with name.
  now rewrite square_to_curly_brackets_join.
Qed.

Lemma dir_route_path_one_part_root_witness :
  dir_route_path (mkPath false ["api"])
    (mkPath false ["api"; "users"; "[user_id]"]) "profile.py"
  = Str.replace "api" ""
      (Str.join "/" (map square_to_curly_brackets ["users"; "[user_id]"])).
Proof.
  apply (dir_route_path_one_part_root "api" ["users"; "[user_id]"] "profile.py");
    try reflexivity; repeat constructor.
Defined.

Lemma route_path_tail directory root file :
  exists tail,
    route_path_of directory root file
    = (dir_route_path directory root file ++ tail)%string
    /\ (tail = "" \/ String.prefix "/" tail = true).
Proof.
  unfold route_path_of.
  destruct (Re.search_group (PurePath.stem file)) as [param|].
  - exists ("/{" ++ param ++ "}")%string. split; [reflexivity | now right].
  - destruct (negb (PurePath.stem file =? "route")%string).
    + exists ("/" ++ PurePath.stem file)%string.
      split; [reflexivity | right; apply (prefix_append "/")].
    + exists "". split; [now rewrite append_empty_r | now left].
Qed.

(** The calls registered come from the entries of the tree. *)
Lemma registrations_origin app imp directory t auto_tags verbose h call :
  In call (registrations
             (events_of (load_routes app imp directory t auto_tags verbose h))) ->
  exists e, In e (tree_entries imp directory t)
            /\ fst (fst call) = snd e /\ snd (fst call) = fst e.
Proof.
  destruct (run_shape app imp directory t auto_tags verbose h)
    as (added & re & ri & reg & rr & HE & HI & Hh & Hreg & Hor & Hret).
  rewrite Hreg. intros H. apply in_map_iff in H. destruct H as (e & <- & He).
  exists e. split; [|now split].
  destruct Hor as [-> | (_ & _ & Hs)]; [contradiction|].
  eapply Permutation_in; [symmetry; apply sorted_perm|].
  rewrite Hs. apply in_or_app. now left.
Qed.

(** X10.  With a root directory passed as a relative path of two parts,
    a name free of brackets, and a tree of plain names, every prefix
    handed to [include_router] is empty or starts with ["/"]. *)
Theorem two_part_root_prefixes_start_with_slash
    app imp (first name : string) t auto_tags verbose h call :
  plain_name first -> plain_name name -> name <> "" ->
  Str.contains "[" name = false -> Str.contains "]" name = false ->
  plain_tree t ->
  In call (registrations
             (events_of (load_routes app imp (mkPath false [first; name]) t
                           auto_tags verbose h))) ->
  snd (fst call) = "" \/ String.prefix "/" (snd (fst call)) = true.
Proof.
  intros Pf Pn N B1 B2 Pt Hc.
  destruct (registrations_origin _ _ _ _ _ _ _ _ Hc) as (e & He & _ & Hp).
  destruct (tree_entries_origin _ _ _ _ He)
    as (root & files & file & Hw & Hf & _ & _ & _ & Hpath).
  destruct (walk_plain t _ _ _ Pt Hw) as (Ha & Pfiles & subs & Hparts & Psubs).
  rewrite Forall_forall in Pfiles. specialize (Pfiles file Hf).
  destruct root as [a ps]. cbn [absolute parts] in Ha, Hparts. subst a ps.
  rewrite Hp, Hpath.
  destruct (route_path_tail (mkPath false [first; name])
              (mkPath false ([first; name] ++ subs)) file) as (tail & -> & Ht).
  rewrite dir_route_path_under_two_parts by assumption.
  destruct subs as [|s ss]; [exact Ht|].
  right. rewrite append_assoc. apply (prefix_append "/").
Qed.

Lemma two_part_root_prefixes_start_with_slash_witness :
  snd (fst (0, "/users", ["/users"])) = ""
  \/ String.prefix "/" (snd (fst (0, "/users", ["/users"]))) = true.
Proof.
  apply (two_part_root_prefixes_start_with_slash
           fastapi one_router "app" "api" users_tree true false no_tags
           (0, "/users", ["/users"]));
    try reflexivity; try discriminate.
  - cbn. repeat split; repeat constructor.
  - now left.
Defined.

(* ================================================================== *)
(** ** A root directory with a bracket in its name *)
(* ================================================================== *)

Lemma contains_inv (sub s : string) :
  Str.contains sub s = true -> exists a b, s = (a ++ sub ++ b)%string.
Proof.
  induction s as [|c s IH]; intros H.
  - cbn [Str.contains] in H. rewrite orb_false_r in H.
    destruct (prefix_inv _ _ H) as [rest E]. now exists "", rest.
  - cbn [Str.contains] in H. apply orb_true_iff in H. destruct H as [H|H].
    + destruct (prefix_inv _ _ H) as [rest E]. now exists "", rest.
    + destruct (IH H) as (a & b & ->). now exists (String c a), b.
Qed.

Lemma contains_unfold (sub s : string) :
  Str.contains sub s
  = String.prefix sub s
    || match s with
       | EmptyString => false
       | String _ s' => Str.contains sub s'
       end.
Proof. now destruct s. Qed.

Lemma contains_append_r (sub a b : string) :
  Str.contains sub b = true -> Str.contains sub (a ++ b) = true.
Proof.
  intros H. induction a as [|c a IH]; [exact H|].
  cbn [append]. rewrite contains_unfold, IH. apply orb_true_r.
Qed.

Lemma contains_append_l (sub a b : string) :
  Str.contains sub a = true -> Str.contains sub (a ++ b) = true.
Proof.
  induction a as [|c a IH]; intros H.
  - rewrite contains_unfold, orb_false_r in H.
    destruct (prefix_inv _ _ H) as [rest E]. destruct sub; [|discriminate].
    rewrite contains_unfold. now rewrite prefix_empty_l.
  - rewrite contains_unfold in H. apply orb_true_iff in H.
    cbn [append]. rewrite contains_unfold. apply orb_true_iff.
    destruct H as [H|H].
    + left. exact (prefix_weaken sub (String c a) b H).
    + right. now apply IH.
Qed.

(** What occurs in a part of a string occurs in the string. *)
Lemma contains_trans (x sub s : string) :
  Str.contains x sub = true -> Str.contains sub s = true ->
  Str.contains x s = true.
Proof.
  intros H1 H2. destruct (contains_inv _ _ H2) as (a & b & ->).
  apply contains_append_r, contains_append_l, H1.
Qed.

(** X9.  The brackets are converted before the root's name is looked for, so a
    root directory whose name has a square bracket is never found in the
    joined string: nothing is taken out of it. *)
Theorem bracketed_root_name_never_stripped directory root file :
  Str.contains "[" (PurePath.name directory) = true
  \/ Str.contains "]" (PurePath.name directory) = true ->
  dir_route_path directory root file
  = square_to_curly_brackets (joined_dirs root file).
Proof.
  intros H. unfold dir_route_path. apply replace_absent.
  destruct (Str.contains (PurePath.name directory)
              (square_to_curly_brackets (joined_dirs root file))) eqn:E;
    [|reflexivity].
  rewrite square_to_curly_brackets_map in E. exfalso. destruct H as [H|H].
  - assert (X := contains_trans _ _ _ H E).
    rewrite (map_chars_avoids curly "["%char _ curly_not_open) in X. discriminate.
  - assert (X := contains_trans _ _ _ H E).
    rewrite (map_chars_avoids curly "]"%char _ curly_not_close) in X. discriminate.
Qed.

Lemma bracketed_root_name_never_stripped_witness :
  dir_route_path (mkPath false ["app"; "[tenant]"])
    (mkPath false ["app"; "[tenant]"; "users"]) "route.py"
  = "{tenant}/users".
Proof.
  apply (bracketed_root_name_never_stripped
           (mkPath false ["app"; "[tenant]"])
           (mkPath false ["app"; "[tenant]"; "users"]) "route.py").
  left. reflexivity.
Defined.

(* ================================================================== *)
(** ** The order of the registrations *)
(* ================================================================== *)

Lemma sorted_beginning {X : Type} (R : X -> X -> Prop) (a b : list X) :
  StronglySorted R (a ++ b) -> StronglySorted R a.
Proof.
  induction a as [|x a IH]; intros S; [constructor|].
  cbn [List.app] in S. apply StronglySorted_inv in S. destruct S as [S F].
  constructor; [now apply IH|].
  apply Forall_app in F. now destruct F.
Qed.

(** X16.  The prefixes are handed to [include_router] in ascending order. *)
Theorem registrations_in_ascending_order app imp directory t auto_tags verbose h :
  StronglySorted
    (fun a b => String.leb (snd (fst a)) (snd (fst b)) = true)
    (registrations (events_of (load_routes app imp directory t auto_tags verbose h))).
Proof.
  destruct (run_shape app imp directory t auto_tags verbose h)
    as (added & re & ri & reg & rr & HE & HI & Hh & Hreg & Hor & Hret).
  rewrite Hreg.
  assert (S : StronglySorted path_le reg).
  { destruct Hor as [-> | (_ & _ & Hs)]; [constructor|].
    apply (sorted_beginning path_le reg rr).
    assert (S' := sorted_sorted (tree_entries imp directory t)).
    now rewrite Hs in S'. }
  clear Hreg Hor Hret. induction S as [|e l S IH F]; [constructor|].
  cbn [map]. constructor; [exact IH|].
  rewrite Forall_map. exact F.
Qed.

(* ================================================================== *)
(** ** Entries with the same route path *)
(* ================================================================== *)

Lemma filter_map_swap {X Y : Type} (g : X -> Y) (p : Y -> bool) (l : list X) :
  filter p (map g l) = map g (filter (fun x => p (g x)) l).
Proof.
  induction l as [|x l IH]; [reflexivity|].
  cbn [map filter]. destruct (p (g x)); cbn [map]; now rewrite IH.
Qed.

(** X17.  Nothing rejects two files that give the same route path: after a run
    that returned, the routers registered under one prefix are the
    routers of the entries of the tree with that route path, all of
    them, in the order of the walk. *)
Theorem same_prefix_keeps_walk_order app imp directory t auto_tags verbose h prefix :
  result_of (load_routes app imp directory t auto_tags verbose h) = Ok tt ->
  map (fun call => fst (fst call))
      (filter (fun call => String.eqb (snd (fst call)) prefix)
         (registrations
            (events_of (load_routes app imp directory t auto_tags verbose h))))
  = map snd
      (filter (fun e => String.eqb (fst e) prefix) (tree_entries imp directory t)).
Proof.
  intros Hok.
  destruct (run_shape app imp directory t auto_tags verbose h)
    as (added & re & ri & reg & rr & HE & HI & Hh & Hreg & _ & Hret).
  destruct (Hret Hok) as (_ & _ & ->). rewrite Hreg.
  rewrite filter_map_swap, map_map. cbn [fst snd].
  now rewrite sorted_stable.
Qed.

Lemma same_prefix_keeps_walk_order_witness :
  map (fun call => fst (fst call))
      (filter (fun call => String.eqb (snd (fst call)) "/users/{id}")
         (registrations
            (events_of (load_routes accepting router_per_module app_api colliding_tree
                          true false no_tags))))
  = map snd
      (filter (fun e => String.eqb (fst e) "/users/{id}")
         (tree_entries router_per_module app_api colliding_tree)).
Proof.
  apply (same_prefix_keeps_walk_order
           accepting router_per_module app_api colliding_tree true false no_tags
           "/users/{id}").
  reflexivity.
Defined.

(** Both files are registered under [/users/{id}], [bb[id].py] first as in
    the listing of the directory. *)
Example colliding_files_both_registered :
  registrations
    (events_of (load_routes accepting router_per_module app_api colliding_tree
                  true false no_tags))
  = [(20, "/users/{id}", ["/users/{id}"]); (19, "/users/{id}", ["/users/{id}"])].
Proof. reflexivity. Qed.

(* ================================================================== *)
(** ** [verbose] *)
(* ================================================================== *)

Section Levels.

Context {A B : Type}.

Lemma same_but_levels_bind (m m' : M A) (f f' : A -> M B) :
  same_but_levels m m' -> (forall a, same_but_levels (f a) (f' a)) ->
  same_but_levels (bind m f) (bind m' f').
Proof.
  intros Hm Hf h. destruct (Hm h) as (Hr & Hh & He). unfold bind.
  destruct (m h) as [[r1 h1] t1], (m' h) as [[r1' h1'] t1'].
  unfold result_of, heap_of, events_of in *. cbn [fst snd] in *. subst r1' h1'.
  destruct r1 as [a|]; [|now repeat split].
  destruct (Hf a h1) as (Hr' & Hh' & He').
  destruct (f a h1) as [[r2 h2] t2], (f' a h1) as [[r2' h2'] t2'].
  unfold result_of, heap_of, events_of in *. cbn [fst snd] in *.
  subst r2' h2'. repeat split.
  now rewrite !map_app, He, He'.
Qed.

End Levels.

Lemma same_but_levels_refl {A : Type} (m : M A) : same_but_levels m m.
Proof. intros h. now repeat split. Qed.

Lemma same_but_levels_foldM {A B : Type} (f f' : A -> B -> M A) (l : list B) :
  (forall a b, same_but_levels (f a b) (f' a b)) ->
  forall a, same_but_levels (foldM f a l) (foldM f' a l).
Proof.
  intros Hf. induction l as [|b l IH]; intros a; [apply same_but_levels_refl|].
  cbn [foldM]. apply same_but_levels_bind; auto.
Qed.

Lemma same_but_levels_forM {B : Type} (f f' : B -> M unit) (l : list B) :
  (forall b, same_but_levels (f b) (f' b)) ->
  same_but_levels (forM_ f l) (forM_ f' l).
Proof.
  intros Hf. induction l as [|b l IH]; [apply same_but_levels_refl|].
  cbn [forM_]. apply same_but_levels_bind; auto.
Qed.

Lemma same_but_levels_log (msg : message) (v v' : bool) :
  same_but_levels (log msg v) (log msg v').
Proof. intros h. rewrite !log_run. now repeat split. Qed.

Lemma same_but_levels_process_file imp directory auto_tags v v' root routers file :
  same_but_levels (process_file imp directory auto_tags v root routers file)
                  (process_file imp directory auto_tags v' root routers file).
Proof.
  intros h. rewrite !process_file_cases.
  destruct (passes_filters file).
  - destruct (imp (module_name root file)) as [|[router|]]; now repeat split.
  - destruct (_ || _); now repeat split.
Qed.

(** X18.  [verbose] decides the level of the log records and nothing else: a
    run with it and a run without it return the same, leave the same
    heap, and emit the same events but for the levels. *)
Theorem verbose_changes_levels_only app imp directory t auto_tags verbose h :
  result_of (load_routes app imp directory t auto_tags false h)
  = result_of (load_routes app imp directory t auto_tags verbose h)
  /\ heap_of (load_routes app imp directory t auto_tags false h)
     = heap_of (load_routes app imp directory t auto_tags verbose h)
  /\ map quiet (events_of (load_routes app imp directory t auto_tags false h))
     = map quiet (events_of (load_routes app imp directory t auto_tags verbose h)).
Proof.
  revert h. change (same_but_levels (load_routes app imp directory t auto_tags verbose)
                                    (load_routes app imp directory t auto_tags false)).
  unfold load_routes.
  apply same_but_levels_bind; [apply same_but_levels_log|]. intros _.
  apply same_but_levels_bind.
  - unfold collect. apply same_but_levels_bind; [|intros; apply same_but_levels_refl].
    unfold accumulate. apply same_but_levels_foldM. intros routers [root files].
    unfold process_dir. destruct (Str.startswith _ _); [apply same_but_levels_refl|].
    apply same_but_levels_foldM. intros. apply same_but_levels_process_file.
  - intros entries. apply same_but_levels_bind.
    + apply same_but_levels_forM. intros [route_path router]. unfold register.
      apply same_but_levels_bind; [apply same_but_levels_log|].
      intros. apply same_but_levels_refl.
    + intros _. apply same_but_levels_bind; [apply same_but_levels_log|].
      intros. apply same_but_levels_refl.
Qed.

Lemma logged_at_foldM {X Y : Type} (lvl : level) (f : X -> Y -> M X) (l : list Y) :
  (forall a b h0, Forall (logged_at lvl) (events_of (f a b h0))) ->
  forall a h0, Forall (logged_at lvl) (events_of (foldM f a l h0)).
Proof.
  intros Hf. induction l as [|b l IH]; intros a h0; [constructor|].
  cbn [foldM]. unfold bind. specialize (Hf a b h0).
  destruct (f a b h0) as [[[a'|] h1] t1]; [|exact Hf].
  specialize (IH a' h1). destruct (foldM f a' l h1) as [[r2 h2] t2].
  unfold events_of in *. cbn [snd] in *. apply Forall_app. now split.
Qed.

Lemma logged_at_registration_events (verbose : bool) h (entries : list entry) :
  Forall (logged_at (if verbose then INFO else DEBUG))
    (registration_events verbose h entries).
Proof.
  unfold registration_events. induction entries as [|e l IH]; [constructor|].
  cbn [flat_map List.app]. repeat constructor. exact IH.
Qed.

(** X19.  Every log record of a run is at level INFO with [verbose] and at
    level DEBUG without it; nothing is logged at WARNING or above. *)
Theorem log_records_at_one_level app imp directory t auto_tags (verbose : bool) h :
  Forall (logged_at (if verbose then INFO else DEBUG))
    (events_of (load_routes app imp directory t auto_tags verbose h)).
Proof.
  set (lvl := if verbose then INFO else DEBUG).
  assert (Hfile : forall root routers file h0,
            Forall (logged_at lvl)
              (events_of (process_file imp directory auto_tags verbose
                            root routers file h0))).
  { intros. rewrite process_file_cases. unfold events_of.
    destruct (passes_filters file).
    - destruct (imp (module_name root file)) as [|[router|]]; cbn [snd];
        repeat constructor.
    - destruct (_ || _); cbn [snd]; repeat constructor. }
  assert (Hacc : forall h0,
            Forall (logged_at lvl)
              (events_of (accumulate imp directory t auto_tags verbose h0))).
  { intros h0. unfold accumulate. apply logged_at_foldM.
    intros routers [root files] h1.
    unfold process_dir. destruct (Str.startswith _ _); [constructor|].
    apply logged_at_foldM. intros. apply Hfile. }
  assert (O := load_routes_outline app imp directory t auto_tags verbose h).
  specialize (Hacc h).
  destruct (accumulate imp directory t auto_tags verbose h) as [[[routers|] h1] t1];
    unfold events_of in *; cbn [snd] in *.
  - destruct O as (reg & rest & Hs & [(_ & _ & ->) | (b & e & _ & _ & _ & ->)]);
      cbn [snd].
    + constructor; [reflexivity|]. apply Forall_app. split; [exact Hacc|].
      apply Forall_app. split; [|repeat constructor].
      apply logged_at_registration_events.
    + constructor; [reflexivity|]. apply Forall_app. split; [exact Hacc|].
      apply logged_at_registration_events.
  - rewrite O. cbn [snd]. constructor; [reflexivity | exact Hacc].
Qed.

(* ================================================================== *)
(** ** One file *)
(* ================================================================== *)

(** C8 (as amended).  A [.py] file whose name does not start with ["__"]
    and whose stem contains [route] without being [route] is skipped:
    the routers collected so far are returned as they are, nothing is
    imported, nothing raises, the heap is untouched, and one message is
    logged, at level INFO when [verbose] is set and DEBUG otherwise. *)
Theorem misspelled_route_file_skipped
    imp directory auto_tags verbose root routers file h :
  Str.startswith file "__" = false ->
  PurePath.suffix file = ".py" ->
  Str.contains "route" (PurePath.stem file) = true ->
  PurePath.stem file <> "route" ->
  process_file imp directory auto_tags verbose root routers file h
  = (Ok routers, h,
     [Log (if verbose then INFO else DEBUG)
          (SkippingMisspelled (PurePath.stem file) root)]).
Proof.
  intros H1 H2 H3 H4. unfold process_file.
  rewrite H1, H2, H3. apply String.eqb_neq in H4. rewrite H4. simpl.
  erewrite bind_ok by apply log_run. reflexivity.
Qed.

Lemma misspelled_route_file_skipped_witness :
  process_file one_router app_api true true
    (mkPath false ["app"; "api"; "users"]) [] "router.py" no_tags
  = (Ok [], no_tags,
     [Log INFO (SkippingMisspelled "router" (mkPath false ["app"; "api"; "users"]))]).
Proof.
  apply (misspelled_route_file_skipped one_router app_api true true
           (mkPath false ["app"; "api"; "users"]) [] "router.py" no_tags);
    [reflexivity | reflexivity | reflexivity | discriminate].
Defined.

(** C8 (as stated) fails: the run over [users/router.py] and
    [users/router.txt] logs the skip of [router.py] at INFO (at DEBUG
    when not verbose), never at WARNING, and logs nothing at all for
    [router.txt]. *)
Lemma warning_level_counterexample :
  (~ exists app verbose,
       misspelled_logged_as_warning
         (events_of (load_routes app one_router app_api misspelled_tree
                       true verbose no_tags))
         "router")
  /\ (forall app,
        events_of (load_routes app one_router app_api misspelled_tree
                     true true no_tags)
        = [Log INFO (LoadingRoutesFrom app_api);
           Log INFO (SkippingMisspelled "router"
                       (mkPath false ["app"; "api"; "users"]));
           Log INFO RoutesLoaded]).
Proof.
  split; [|reflexivity].
  intros [app [[|] [root H]]]; vm_compute in H;
    repeat (destruct H as [H|H]; [discriminate H|]); exact H.
Qed.

(** C3 (as amended).  For a file that gives an entry, the entry is the
    route path with the router.  With [auto_tags] the tag put at the end
    of the router's tags is the route path from which every occurrence
    of the root directory's name has been taken out once more; it is the
    route path itself when the name does not occur in it.  Without
    [auto_tags] the heap is left as it is. *)
Theorem auto_tag_is_stripped_route_path
    imp directory auto_tags verbose root routers file router h :
  Str.startswith file "__" = false ->
  PurePath.suffix file = ".py" ->
  Str.contains "route" (PurePath.stem file) = false
    \/ PurePath.stem file = "route" ->
  imp (module_name root file) = Imported (Some router) ->
  let route_path := route_path_of directory root file in
  let tag := Str.replace (PurePath.name directory) "" route_path in
  process_file imp directory auto_tags verbose root routers file h
  = (Ok (routers ++ [(route_path, router)]),
     (if auto_tags then set_tags h router (h router ++ [tag]) else h),
     [ImportModule (module_name root file)])
  /\ (Str.contains (PurePath.name directory) route_path = false ->
      tag = route_path).
Proof.
  intros H1 H2 H3 H4 route_path tag. split.
  - unfold process_file. rewrite H1, H2.
    replace (Str.contains "route" (PurePath.stem file)
             && negb (PurePath.stem file =? "route")%string) with false.
    2:{ destruct H3 as [-> | ->]; reflexivity. }
    simpl.
    assert (Hi : import_router imp (module_name root file) h
                 = (Ok (Some router), h, [ImportModule (module_name root file)])).
    { unfold import_router. now rewrite H4. }
    erewrite bind_ok by exact Hi.
    destruct auto_tags; reflexivity.
  - intros Hn. now apply replace_absent.
Qed.

Lemma auto_tag_is_stripped_route_path_witness :
  process_file one_router app_api true false
    (mkPath false ["app"; "api"; "users"]) [] "apikey.py" no_tags
  = (Ok [("/users/apikey", 0)],
     set_tags no_tags 0 ["/users/key"],
     [ImportModule "app.api.users.apikey"]).
Proof.
  apply (auto_tag_is_stripped_route_path one_router app_api true false
           (mkPath false ["app"; "api"; "users"]) [] "apikey.py" 0 no_tags);
    [reflexivity | reflexivity | left; reflexivity | reflexivity].
Defined.

(** C3 (as stated) fails: for [app/api/users/apikey.py] the route path
    is [/users/apikey] and the tag is [/users/key]. *)
Lemma tag_counterexample :
  ~ tag_is_route_path one_router app_api (mkPath false ["app"; "api"; "users"])
      false [] "apikey.py" no_tags.
Proof.
  intros H. specialize (H 0 eq_refl). vm_compute in H. discriminate H.
Qed.

(* ================================================================== *)
(** ** The route path *)
(* ================================================================== *)

(** *** Cutting a string at the occurrences of the root's name *)

Lemma drop_length (i : nat) (s : string) :
  String.length (Str.drop i s) = String.length s - i.
Proof.
  revert i. induction s as [|c s IH]; intros [|i]; try reflexivity.
  cbn [Str.drop String.length]. now rewrite IH.
Qed.

Lemma take_length (i : nat) (s : string) :
  i <= String.length s -> String.length (Str.take i s) = i.
Proof.
  revert i. induction s as [|c s IH]; intros [|i] H; try reflexivity.
  - cbn in H. lia.
  - cbn [Str.take String.length] in *. rewrite IH; lia.
Qed.

(** A name is all but its last character, then its last character. *)
Lemma name_last (name : string) :
  name <> "" ->
  exists last,
    name = (Str.drop_last 1 name ++ last)%string
    /\ String.length (Str.drop_last 1 name) = String.length name - 1.
Proof.
  intros N. exists (Str.drop (String.length name - 1) name). split.
  - unfold Str.drop_last. symmetry. apply take_drop.
  - unfold Str.drop_last. apply take_length. lia.
Qed.

Lemma contains_shorter (name s : string) :
  String.length s < String.length name -> Str.contains name s = false.
Proof.
  induction s as [|c s IH]; intros H.
  - apply contains_empty_r. destruct name; [cbn in H; lia | discriminate].
  - rewrite contains_unfold. rewrite IH by (cbn [String.length] in H; lia).
    rewrite orb_false_r.
    destruct (String.prefix name (String c s)) eqn:E; [|reflexivity].
    destruct (prefix_inv _ _ E) as [rest Hr].
    apply (f_equal String.length) in Hr. rewrite length_append in Hr. lia.
Qed.

Lemma prefix_contains (name s : string) :
  String.prefix name s = true -> Str.contains name s = true.
Proof. intros H. rewrite contains_unfold, H. reflexivity. Qed.

Lemma contains_occurrence (name a b : string) :
  Str.contains name (a ++ name ++ b) = true.
Proof. apply contains_append_r, prefix_contains, prefix_append. Qed.

Lemma prefix_short (x a b : string) :
  String.prefix x (a ++ b) = true -> String.length x <= String.length a ->
  String.prefix x a = true.
Proof.
  revert a. induction x as [|c x IH]; intros a H L; [apply prefix_empty_l|].
  destruct a as [|d a]; [cbn in L; lia|].
  cbn [append String.prefix] in *.
  destruct (ascii_dec c d); [|discriminate].
  apply IH; [exact H | cbn [String.length] in L; lia].
Qed.

(** An occurrence that starts inside [piece], in a string that goes on
    with [name] after [piece], lies in [piece] extended by all but the
    last character of [name]. *)
Lemma early_occurrence (name piece rest : string) :
  name <> "" -> piece <> "" ->
  String.prefix name (piece ++ name ++ rest) = true ->
  Str.contains name (piece ++ Str.drop_last 1 name) = true.
Proof.
  intros N P H. destruct (name_last name N) as (last & Hn & Hl).
  apply prefix_contains.
  apply (prefix_short name (piece ++ Str.drop_last 1 name) (last ++ rest)).
  - rewrite append_assoc, <- (append_assoc (Str.drop_last 1 name)), <- Hn.
    exact H.
  - rewrite length_append, Hl. destruct piece; [congruence|].
    destruct name; [congruence|]. cbn [String.length]. lia.
Qed.

Lemma append_same_start (a b c : string) :
  (a ++ b)%string = (a ++ c)%string -> b = c.
Proof.
  induction a as [|x a IH]; intros H; [exact H|].
  cbn [append] in H. injection H as H. now apply IH.
Qed.

(** The first occurrence is where it is. *)
Lemma first_cut_unique (name : string) :
  name <> "" ->
  forall piece piece' rest rest',
    (piece ++ name ++ rest)%string = (piece' ++ name ++ rest')%string ->
    Str.contains name (piece ++ Str.drop_last 1 name) = false ->
    Str.contains name (piece' ++ Str.drop_last 1 name) = false ->
    piece = piece' /\ rest = rest'.
Proof.
  intros N. induction piece as [|c p IH]; intros piece' rest rest' E H1 H2.
  - destruct piece' as [|c' p'].
    + split; [reflexivity|]. exact (append_same_start name rest rest' E).
    + exfalso. assert (X : Str.contains name (String c' p' ++ Str.drop_last 1 name) = true).
      { apply (early_occurrence name (String c' p') rest' N); [discriminate|].
        rewrite <- E. apply (prefix_append name rest). }
      congruence.
  - destruct piece' as [|c' p'].
    + exfalso. assert (X : Str.contains name (String c p ++ Str.drop_last 1 name) = true).
      { apply (early_occurrence name (String c p) rest N); [discriminate|].
        rewrite E. apply (prefix_append name rest'). }
      congruence.
    + cbn [append] in E. injection E as Ec E. subst c'.
      cbn [append] in H1, H2.
      apply contains_cons_false in H1. apply contains_cons_false in H2.
      destruct (IH p' rest rest' E (proj2 H1) (proj2 H2)) as [-> ->]. now split.
Qed.

(** There is one cut of a string. *)
Lemma scan_cut_unique (name : string) :
  name <> "" ->
  forall s pieces pieces',
    scan_cut name s pieces -> scan_cut name s pieces' -> pieces = pieces'.
Proof.
  intros N s pieces pieces' H. revert pieces'.
  induction H as [s Hs | piece rest ps Hp Hrest IH]; intros pieces' H'.
  - inversion H' as [s0 Hs0 | piece' rest' ps' Hp' Hrest' E]; subst; [reflexivity|].
    rewrite contains_occurrence in Hs. discriminate.
  - inversion H' as [s0 Hs0 | piece' rest' ps' Hp' Hrest' E]; subst.
    + rewrite contains_occurrence in Hs0. discriminate.
    + symmetry in E.
      destruct (first_cut_unique name N _ _ _ _ E Hp Hp') as [-> ->].
      f_equal. now apply IH.
Qed.

(** [s.replace(name, "")] glues the pieces of the cut. *)
Lemma replace_scan_cut (name : string) :
  name <> "" ->
  forall s,
  exists pieces,
    scan_cut name s pieces
    /\ Str.replace name "" s = String.concat "" pieces.
Proof.
  intros N s.
  assert (Hrep : forall u, Str.replace name "" u = Str.replace_from name "" 0 u).
  { intros u. unfold Str.replace. destruct name; [congruence | reflexivity]. }
  remember (String.length s) as n eqn:Hn. revert s Hn.
  induction n as [n IH] using lt_wf_ind. intros s Hn.
  destruct s as [|c s].
  - exists [""]. split; [|now rewrite Hrep].
    apply cut_last. now apply contains_empty_r.
  - destruct (String.prefix name (String c s)) eqn:Hp.
    + destruct (prefix_inv _ _ Hp) as [rest Hs].
      assert (Hlen : String.length rest < n).
      { rewrite Hn, Hs, length_append. destruct name; [congruence | cbn; lia]. }
      destruct (IH _ Hlen rest eq_refl) as (ps & Hcut & Hr).
      exists ("" :: ps). split.
      * rewrite Hs. apply (cut_next name "" rest ps); [|exact Hcut].
        apply contains_shorter. destruct (name_last name N) as (last & _ & Hl).
        cbn [append]. rewrite Hl. destruct name; [congruence | cbn; lia].
      * rewrite Hs, Hrep, replace_from_hit by exact N.
        rewrite <- Hrep, Hr. destruct ps; reflexivity.
    + assert (Hlen : String.length s < n) by (rewrite Hn; cbn; lia).
      destruct (IH _ Hlen s eq_refl) as (ps & Hcut & Hr).
      assert (Hr' : Str.replace name "" (String c s)
                    = String c (Str.replace name "" s)).
      { rewrite !Hrep. now apply replace_from_miss. }
      inversion Hcut as [s0 Hs0 | piece rest ps' Hpiece Hrest E]; subst.
      * exists [String c s]. split.
        -- apply cut_last. rewrite contains_unfold, Hp, Hs0. reflexivity.
        -- rewrite Hr', Hr. reflexivity.
      * exists (String c piece :: ps'). split.
        -- apply (cut_next name (String c piece) rest ps'); [|exact Hrest].
           cbn [append]. rewrite contains_unfold, Hpiece, orb_false_r.
           destruct (String.prefix name
                       (String c (piece ++ Str.drop_last 1 name))) eqn:Hq;
             [|reflexivity].
           destruct (name_last name N) as (last & Hnl & _).
           assert (Hw : String.prefix name
                          (String c (piece ++ Str.drop_last 1 name)
                           ++ (last ++ rest)) = true)
             by (now apply prefix_weaken).
           cbn [append] in Hw.
           rewrite append_assoc, <- (append_assoc (Str.drop_last 1 name)),
             <- Hnl in Hw.
           congruence.
        -- rewrite Hr', Hr. destruct ps'; reflexivity.
Qed.

(** C2 (as amended).  The directory part of the route path is the joined
    string with the occurrences of the root directory's name taken out
    that one pass from the left finds, however many they are: the joined
    string is cut at the leftmost occurrence, then at the leftmost
    occurrence in what follows it, and so on; there is one such cut of
    the joined string, and the directory part is its pieces glued with
    nothing between them, every character of the pieces kept.  With an
    empty name the joined string is kept as it is. *)
Theorem dir_route_path_strips_every_occurrence directory root file :
  let name := PurePath.name directory in
  let joined := square_to_curly_brackets (joined_dirs root file) in
  (name = "" -> dir_route_path directory root file = joined)
  /\ (name <> "" ->
      (exists pieces, scan_cut name joined pieces)
      /\ (forall pieces,
            scan_cut name joined pieces ->
            dir_route_path directory root file = String.concat "" pieces)).
Proof.
  intros name joined. split.
  - intros E. unfold dir_route_path. fold name. rewrite E.
    apply replace_empty_name.
  - intros N. destruct (replace_scan_cut name N joined) as (ps & Hcut & Hr).
    split; [now exists ps|]. intros pieces Hp.
    rewrite (scan_cut_unique name N joined pieces ps Hp Hcut). exact Hr.
Qed.

Lemma dir_route_path_strips_every_occurrence_witness :
  (exists pieces, scan_cut "api" "api/api" pieces)
  /\ (forall pieces,
        scan_cut "api" "api/api" pieces ->
        dir_route_path app_api (mkPath false ["app"; "api"; "api"]) "route.py"
        = String.concat "" pieces).
Proof.
  apply (dir_route_path_strips_every_occurrence
           app_api (mkPath false ["app"; "api"; "api"]) "route.py").
  discriminate.
Defined.

(** The cut of [aba/ababa] at [aba] is [""], ["/"], ["ba"]: the second
    occurrence found is the one at the start of [ababa]. *)
Example leftmost_occurrences :
  scan_cut "aba" "aba/ababa" [""; "/"; "ba"]
  /\ dir_route_path (mkPath false ["x"; "aba"])
       (mkPath false ["x"; "aba"; "ababa"]) "route.py" = "/ba".
Proof.
  split; [|reflexivity].
  apply (cut_next "aba" "" "/ababa" ["/"; "ba"]); [reflexivity|].
  apply (cut_next "aba" "/" "ba" ["ba"]); [reflexivity|].
  apply cut_last. reflexivity.
Qed.

(** C2 (as stated) fails: for [app/api/api/route.py] under the root
    [app/api] the joined string is [api/api] and what is left of it is
    [/]; both occurrences of [api] are gone. *)
Lemma one_occurrence_counterexample :
  ~ strips_one_occurrence app_api (mkPath false ["app"; "api"; "api"]) "route.py".
Proof.
  intros (before & after & H1 & H2).
  apply (f_equal String.length) in H1. apply (f_equal String.length) in H2.
  rewrite !length_append in H1. rewrite length_append in H2.
  change (7 = String.length before + (3 + String.length after)) in H1.
  change (1 = String.length before + String.length after) in H2.
  lia.
Qed.

Lemma search_group_route : Re.search_group "route" = None.
Proof. reflexivity. Qed.

Lemma group_body_line (x rest : string) :
  Str.contains "]" x = false ->
  Re.group_body (x ++ String Re.newline rest) = None.
Proof.
  induction x as [|c x IH]; intros H; [reflexivity|].
  apply contains_char_cons_false in H. destruct H as [N H].
  cbn [append Re.group_body].
  destruct (Ascii.eqb_spec c "]") as [->|_]; [now elim N|].
  destruct (Ascii.eqb c Re.newline); [reflexivity|].
  now rewrite IH.
Qed.

(** The match is the first group: a ["["] before it that is followed by
    a line feed before any ["]"] opens no group. *)
Lemma search_group_first (pre param post : string) :
  (forall a b, pre = (a ++ "[" ++ b)%string ->
     exists x y, b = (x ++ String Re.newline y)%string
                 /\ Str.contains "]" x = false) ->
  Str.contains "]" param = false ->
  Str.contains (String Re.newline "") param = false ->
  Re.search_group (pre ++ "[" ++ param ++ "]" ++ post) = Some param.
Proof.
  intros H0 H1 H2. induction pre as [|c pre IH].
  - apply search_group_found; [reflexivity | exact H1 | exact H2].
  - assert (IH' : Re.search_group (pre ++ "[" ++ param ++ "]" ++ post)
                  = Some param).
    { apply IH. intros a b E. apply (H0 (String c a) b).
      cbn [append]. now rewrite E. }
    cbn [append Re.search_group].
    destruct (Ascii.eqb_spec c "[") as [->|_]; [|exact IH'].
    destruct (H0 "" pre eq_refl) as (x & y & E & Hx).
    rewrite E at 1. rewrite append_assoc.
    cbn [append].
    rewrite group_body_line by exact Hx. exact IH'.
Qed.

(** C6.  The route path is the directory part followed by a final
    segment read off the stem:
    - nothing when the stem is [route];
    - [/{param}] when the stem is [pre[param]post] and this is its first
      bracketed group: [param] has no ["]"] and no line feed, and every
      ["["] of [pre] is followed in [pre] by a line feed before any
      ["]"], so that it opens no group;
    - [/stem] when the stem is not [route] and has no bracketed group:
      whenever it reads [pre[inner]post], a line feed is in [inner]. *)
Theorem route_path_final_segment directory root file :
  let stem := PurePath.stem file in
  let base := dir_route_path directory root file in
  (stem = "route" -> route_path_of directory root file = base)
  /\ (forall pre param post,
        stem = (pre ++ "[" ++ param ++ "]" ++ post)%string ->
        (forall a b, pre = (a ++ "[" ++ b)%string ->
           exists x y, b = (x ++ String Re.newline y)%string
                       /\ Str.contains "]" x = false) ->
        Str.contains "]" param = false ->
        Str.contains (String Re.newline "") param = false ->
        route_path_of directory root file
        = (base ++ "/{" ++ param ++ "}")%string)
  /\ (stem <> "route" ->
      (forall pre inner post,
         stem = (pre ++ "[" ++ inner ++ "]" ++ post)%string ->
         Str.contains (String Re.newline "") inner = true) ->
      route_path_of directory root file = (base ++ "/" ++ stem)%string).
Proof.
  intros stem base. unfold route_path_of. fold stem. fold base.
  split; [|split].
  - intros E. rewrite E, search_group_route. reflexivity.
  - intros pre param post E H0 H1 H2.
    now rewrite E, search_group_first.
  - intros N H. destruct (Re.search_group stem) as [g|] eqn:E.
    + destruct (search_group_sound _ _ E) as (pre & post & Es & _ & Hg).
      rewrite (H pre g post Es) in Hg. discriminate.
    + destruct (String.eqb_spec stem "route") as [Er|_]; [contradiction|].
      reflexivity.
Qed.

Lemma route_path_final_segment_witness :
  route_path_of app_api (mkPath false ["app"; "api"; "users"]) "route.py" = "/users"
  /\ route_path_of app_api (mkPath false ["app"; "api"; "users"]) "[user_id].py" = "/users/{user_id}"
  /\ route_path_of app_api (mkPath false ["app"; "api"; "users"]) "a[x]b[y].py" = "/users/{x}"
  /\ route_path_of app_api (mkPath false ["app"; "api"; "users"]) "profile.py" = "/users/profile".
Proof.
  split; [|split; [|split]].
  - apply (proj1 (route_path_final_segment app_api (mkPath false ["app"; "api"; "users"]) "route.py")).
    reflexivity.
  - apply (proj1 (proj2 (route_path_final_segment app_api (mkPath false ["app"; "api"; "users"]) "[user_id].py"))
             "" "user_id" ""); try reflexivity.
    intros [|c a] b E; discriminate.
  - apply (proj1 (proj2 (route_path_final_segment app_api (mkPath false ["app"; "api"; "users"]) "a[x]b[y].py"))
             "a" "x" "b[y]"); try reflexivity.
    intros [|c [|c' a]] b E; discriminate.
  - apply (proj2 (proj2 (route_path_final_segment app_api (mkPath false ["app"; "api"; "users"]) "profile.py"))).
    + discriminate.
    + intros pre inner post E.
      assert (X : Str.contains "[" (PurePath.stem "profile.py") = true)
        by (rewrite E; apply contains_occurrence).
      discriminate.
Defined.

(** C10.  When the stem is [pre[param]post], with the first ["["] of the
    stem the one shown and [param] free of ["]"] and of line feeds, the
    route path ends in [/{param}]: [pre] and [post] leave no trace. *)
Theorem bracketed_stem_keeps_only_parameter directory root file pre param post :
  PurePath.stem file = (pre ++ "[" ++ param ++ "]" ++ post)%string ->
  Str.contains "[" pre = false ->
  Str.contains "]" param = false ->
  Str.contains (String Re.newline "") param = false ->
  route_path_of directory root file
  = (dir_route_path directory root file ++ "/{" ++ param ++ "}")%string.
Proof.
  intros E H0 H1 H2. unfold route_path_of.
  now rewrite E, search_group_found.
Qed.

Lemma bracketed_stem_keeps_only_parameter_witness :
  route_path_of app_api (mkPath false ["app"; "api"; "users"]) "user[id]s.py"
  = "/users/{id}".
Proof.
  apply (bracketed_stem_keeps_only_parameter
           app_api (mkPath false ["app"; "api"; "users"]) "user[id]s.py"
           "user" "id" "s"); reflexivity.
Defined.

(* ================================================================== *)
(** ** Registration: prefix and order of the calls *)
(* ================================================================== *)

(** C1.  [load_routes] passes each entry's route path as the prefix as it
    is (line 125) and puts no ["/"] in front of it, while the line it
    logs just before (line 122) shows the path with one.  Under the root
    [Path("api")], for [api/users/route.py], the entry collected is
    [users]: the line logged reads [/users], the prefix passed is
    [users], and FastAPI, which asserts that a prefix starts with ["/"],
    raises, so that nothing is registered.  Under [Path("app/api")] the
    same file is collected as [/users] and registered with [/users],
    logged as [//users]: the ["/"] there is what is left of the joined
    [api/users] once the root's name is taken out, and no ["/"] is added
    at registration there either. *)
Theorem one_part_root_prefix_lacks_slash :
  (result_of (collect one_router api_dir users_tree true true no_tags)
   = Ok [("users", 0)]
   /\ load_routes fastapi one_router api_dir users_tree true true no_tags
      = (Raised,
         heap_of (collect one_router api_dir users_tree true true no_tags),
         [Log INFO (LoadingRoutesFrom api_dir);
          ImportModule "api.users.route";
          Log INFO (LoadedRouter "Loaded router with path /users");
          IncludeRouter 0 "users" ["users"]])
   /\ fastapi 0 "users" ["users"] = false
   /\ fastapi 0 "/users" ["users"] = true)
  /\ (result_of (collect one_router app_api users_tree true true no_tags)
      = Ok [("/users", 0)]
      /\ load_routes fastapi one_router app_api users_tree true true no_tags
         = (Ok tt,
            heap_of (collect one_router app_api users_tree true true no_tags),
            [Log INFO (LoadingRoutesFrom app_api);
             ImportModule "app.api.users.route";
             Log INFO (LoadedRouter "Loaded router with path //users");
             IncludeRouter 0 "/users" ["/users"];
             Log INFO RoutesLoaded])).
Proof. repeat split. Qed.

(** C9.  The first loop makes no call to [include_router].  When it
    raises, [load_routes] raises with it and no registration has been
    made; when it returns, the events of the run are those of the first
    loop followed by the events of the second, which imports nothing and
    makes its registrations entry by entry in the order of the sorted
    sequence: one for each entry when the run returns, which it does
    whenever the host takes every call. *)
Theorem no_registration_before_collect_ends app imp directory t auto_tags verbose h :
  let first := collect imp directory t auto_tags verbose h in
  let run := load_routes app imp directory t auto_tags verbose h in
  registrations (events_of first) = []
  /\ match result_of first with
     | Raised =>
         result_of run = Raised
         /\ heap_of run = heap_of first
         /\ registrations (events_of run) = []
     | Ok entries =>
         exists second,
           events_of run
           = Log (if verbose then INFO else DEBUG) (LoadingRoutesFrom directory)
             :: events_of first ++ second
           /\ imports second = []
           /\ (exists rest,
                 map (fun e => (snd e, fst e)) entries
                 = map (fun call => (fst (fst call), snd (fst call)))
                       (registrations second) ++ rest
                 /\ (result_of run = Ok tt -> rest = []))
           /\ (Forall (fun e => accepts app (heap_of first) e = true) entries ->
               result_of run = Ok tt)
     end.
Proof.
  intros first run.
  assert (N := collect_registers_nothing imp directory auto_tags verbose t h).
  fold first in N. split; [exact N|].
  subst run. rewrite load_routes_run. fold first.
  destruct first as [[[entries|] h1] tc];
    unfold result_of, heap_of, events_of in *; cbn [fst snd] in *.
  - destruct (register_loop_run app verbose entries h1)
      as (done & rest & HE & Hh & Hev & Hr).
    destruct (forM_ (register app verbose) entries h1) as [[[u|] h2] tr];
      unfold result_of, heap_of, events_of in *; cbn [fst snd] in *; subst tr.
    + destruct Hr as [-> Hall]. rewrite app_nil_r in HE. subst done.
      exists (registration_events verbose h1 entries
              ++ [Log (if verbose then INFO else DEBUG) RoutesLoaded]).
      split; [reflexivity|]. split.
      { now rewrite imports_app, imports_registration_events. }
      split; [|reflexivity].
      exists []. split; [|reflexivity].
      rewrite registrations_app, registrations_registration_events.
      cbn [registrations]. rewrite !app_nil_r, map_map. reflexivity.
    + destruct Hr as (before & e & Hd & Hrej & Hall).
      exists (registration_events verbose h1 done).
      split; [reflexivity|]. split; [apply imports_registration_events|].
      split.
      * exists (map (fun e => (snd e, fst e)) rest). split; [|discriminate].
        rewrite registrations_registration_events, map_map, HE, map_app.
        reflexivity.
      * intros Hacc. exfalso. rewrite Forall_forall in Hacc.
        assert (Hin : In e entries).
        { rewrite HE, Hd. apply in_or_app. left. apply in_or_app. right.
          now left. }
        rewrite (Hacc e Hin) in Hrej. discriminate.
  - repeat split. destruct verbose; exact N.
Qed.

(** A run in which the second import raises: the first module has been
    imported, nothing has been registered. *)
Example raise_before_registration :
  let run :=
    load_routes fastapi broken_module app_api docstring_tree true false no_tags in
  result_of run = Raised
  /\ imports (events_of run) = ["app.api.users.route"; "app.api.users.[user_id]"]
  /\ registrations (events_of run) = [].
Proof. repeat split. Qed.

(* ================================================================== *)
(** ** Runs *)
(* ================================================================== *)



(** C5 (as amended).  When the first loop returns [routers], [collect]
    returns them sorted by route path, each route path being at most
    every one after it in the order of strings, and the entries of one
    route path in the order in which the first loop found them.  The
    sequence is the same whatever the tags of the routers are when the
    run starts, so a second run gives it again.  A run that finds the
    same entries in another order gives the same sequence of route
    paths, and the same sequence of entries when no two entries have
    the same route path. *)
Theorem collect_sorted_and_repeatable imp directory t auto_tags verbose h routers :
  result_of (accumulate imp directory t auto_tags verbose h) = Ok routers ->
  exists entries,
    result_of (collect imp directory t auto_tags verbose h) = Ok entries
    /\ StronglySorted path_le entries
    /\ Permutation routers entries
    /\ (forall path,
          filter (fun e => String.eqb (fst e) path) entries
          = filter (fun e => String.eqb (fst e) path) routers)
    /\ (forall h2,
          result_of (collect imp directory t auto_tags verbose h2) = Ok entries)
    /\ (forall t' h' routers',
          result_of (accumulate imp directory t' auto_tags verbose h') = Ok routers' ->
          Permutation routers routers' ->
          exists entries',
            result_of (collect imp directory t' auto_tags verbose h') = Ok entries'
            /\ map fst entries' = map fst entries
            /\ (NoDup (map fst routers) -> entries' = entries)).
Proof.
  intros H. exists (sorted routers).
  assert (Hc := collect_run _ _ _ _ _ _ _ H).
  split; [exact Hc|]. split; [apply sorted_sorted|].
  split; [apply sorted_perm|]. split; [intros path; apply sorted_stable|].
  split.
  - intros h2.
    destruct (collect_heap_blind imp directory auto_tags verbose t h2 h) as [E _].
    now rewrite E.
  - intros t' h' routers' H' P. exists (sorted routers').
    split; [now apply collect_run|]. split.
    + symmetry. now apply sorted_paths_order_free.
    + intros N. symmetry. now apply sorted_order_free.
Qed.

Lemma collect_sorted_and_repeatable_witness :
  exists entries,
    result_of (collect router_per_module app_api docstring_tree true false no_tags)
    = Ok entries
    /\ StronglySorted path_le entries
    /\ Permutation
         [("/users", 19); ("/users/{user_id}", 23); ("/documents/{document_id}", 37)]
         entries
    /\ (forall path,
          filter (fun e => String.eqb (fst e) path) entries
          = filter (fun e => String.eqb (fst e) path)
              [("/users", 19); ("/users/{user_id}", 23);
               ("/documents/{document_id}", 37)])
    /\ (forall h2,
          result_of (collect router_per_module app_api docstring_tree true false h2)
          = Ok entries)
    /\ (forall t' h' routers',
          result_of (accumulate router_per_module app_api t' true false h')
          = Ok routers' ->
          Permutation
            [("/users", 19); ("/users/{user_id}", 23); ("/documents/{document_id}", 37)]
            routers' ->
          exists entries',
            result_of (collect router_per_module app_api t' true false h')
            = Ok entries'
            /\ map fst entries' = map fst entries
            /\ (NoDup
                  (map fst
                     [("/users", 19); ("/users/{user_id}", 23);
                      ("/documents/{document_id}", 37)]) ->
                entries' = entries)).
Proof.
  apply (collect_sorted_and_repeatable
           router_per_module app_api docstring_tree true false no_tags).
  reflexivity.
Defined.

(** C5 (as stated) fails: [usersapi/route.py] and [users/route.py] both
    have the route path [/users], and [collect] gives the two entries in
    the order in which the walk found them, which is the order in which
    the directories are listed. *)
Lemma entry_order_counterexample :
  ~ visitation_order_free router_per_module app_api siblings_a siblings_b
      true false no_tags
  /\ result_of (collect router_per_module app_api siblings_a true false no_tags)
     = Ok [("/users", 22); ("/users", 19)]
  /\ result_of (collect router_per_module app_api siblings_b true false no_tags)
     = Ok [("/users", 19); ("/users", 22)].
Proof.
  split; [|split; reflexivity].
  intros H.
  specialize (H [("/users", 22); ("/users", 19)] [("/users", 19); ("/users", 22)]
                eq_refl eq_refl (perm_swap _ _ _)).
  vm_compute in H. discriminate H.
Qed.

(** The order of registration for the tree of the docstring. *)
Example docstring_order :
  result_of (collect router_per_module app_api docstring_tree true false no_tags)
  = Ok [("/documents/{document_id}", 37); ("/users", 19); ("/users/{user_id}", 23)].
Proof. reflexivity. Qed.

(* ================================================================== *)
(** ** Directories whose name starts with two underscores *)
(* ================================================================== *)

Section Dunder.

Variable imp : importer.
Variable directory : Path.
Variables auto_tags verbose : bool.

Local Abbreviation body := (process_dir imp directory auto_tags verbose).

Lemma process_dir_dunder routers root files h :
  Str.startswith (PurePath.name root) "__" = true ->
  body routers (root, files) h = (Ok routers, h, []).
Proof. intros E. unfold process_dir. now rewrite E. Qed.

Lemma walk_clear_dunder_files t :
  forall top routers h,
    foldM body routers (walk top t) h
    = foldM body routers (walk top (clear_dunder_files top t)) h.
Proof.
  induction t as [ | files subdirs IH | | d sub IHsub rest IHrest]
    using tree_forest_ind
    with (P0 := fun f => forall top routers h,
                  foldM body routers (walk_forest top f) h
                  = foldM body routers
                      (walk_forest top (clear_dunder_forest top f)) h);
    intros top routers h.
  - reflexivity.
  - change (bind (body routers (top, files))
              (fun a => foldM body a (walk_forest top subdirs)) h
            = bind (body routers
                      (top, if Str.startswith (PurePath.name top) "__"
                            then [] else files))
                (fun a => foldM body a
                            (walk_forest top (clear_dunder_forest top subdirs))) h).
    apply bind_ext.
    + intros h0. destruct (Str.startswith (PurePath.name top) "__") eqn:E;
        [|reflexivity].
      now rewrite !process_dir_dunder.
    + intros a h0. apply IH.
  - reflexivity.
  - change (foldM body routers
              (walk (PurePath.div top d) sub ++ walk_forest top rest) h
            = foldM body routers
                (walk (PurePath.div top d)
                   (clear_dunder_files (PurePath.div top d) sub)
                 ++ walk_forest top (clear_dunder_forest top rest)) h).
    rewrite !foldM_app. apply bind_ext.
    + intros h0. apply IHsub.
    + intros a h0. apply IHrest.
Qed.

End Dunder.

(** A file that gets past the filters and whose module has a router is
    an entry of the tree, when the directory that holds it is an item of
    the walk and has a name that does not start with ["__"]. *)
Lemma tree_entries_of_file imp directory t root files file router :
  In (root, files) (walk directory t) ->
  Str.startswith (PurePath.name root) "__" = false ->
  In file files ->
  passes_filters file = true ->
  imp (module_name root file) = Imported (Some router) ->
  In (route_path_of directory root file, router) (tree_entries imp directory t).
Proof.
  intros Hw Hd Hf Hp Hi. unfold tree_entries. apply in_flat_map.
  exists (root, files). split; [exact Hw|].
  unfold dir_entries. cbn [fst snd]. rewrite Hd. apply in_flat_map.
  exists file. split; [exact Hf|].
  unfold file_entries. rewrite Hp, Hi. now left.
Qed.

Lemma accumulate_tree_entries imp directory t auto_tags verbose h routers :
  result_of (accumulate imp directory t auto_tags verbose h) = Ok routers ->
  routers = tree_entries imp directory t.
Proof.
  intros E.
  destruct (progress_accumulate imp directory auto_tags verbose t h)
    as (done & re & ri & HE & _ & _ & _ & Hr).
  rewrite E in Hr. destruct Hr as (-> & -> & _).
  rewrite app_nil_r in HE. now rewrite HE.
Qed.

(** C7 (as amended).  The files that lie directly in a directory whose
    name starts with ["__"] give nothing: the run is the run over the
    tree in which every such directory has lost its own files, with the
    same result, heap and events, and every entry that the first loop
    returns comes from a file in a directory of the walk whose own name
    does not start with ["__"].  The directories below such a directory
    are walked like any other: a directory at any place of the tree
    whose own name does not start with ["__"], whatever the names of the
    directories above it, gives an entry for each of its files that gets
    past the filters and whose module has a router. *)
Theorem dunder_directory_files_ignored app imp directory t auto_tags verbose h :
  load_routes app imp directory t auto_tags verbose h
  = load_routes app imp directory (clear_dunder_files directory t)
      auto_tags verbose h
  /\ forall routers,
       result_of (accumulate imp directory t auto_tags verbose h) = Ok routers ->
       (forall e,
          In e routers ->
          exists root files file,
            In (root, files) (walk directory t)
            /\ In file files
            /\ Str.startswith (PurePath.name root) "__" = false
            /\ fst e = route_path_of directory root file
            /\ imp (module_name root file) = Imported (Some (snd e)))
       /\ (forall subs files subdirs file router,
             subtree subs t = Some (Dir files subdirs) ->
             Str.startswith (PurePath.name (extend directory subs)) "__" = false ->
             In file files ->
             passes_filters file = true ->
             imp (module_name (extend directory subs) file)
             = Imported (Some router) ->
             In (route_path_of directory (extend directory subs) file, router)
                routers).
Proof.
  split.
  - unfold load_routes. apply bind_ext; [reflexivity|]. intros _ h1.
    apply bind_ext; [|reflexivity]. intros h2.
    unfold collect. apply bind_ext; [|reflexivity]. intros h3.
    unfold accumulate. apply walk_clear_dunder_files.
  - intros routers E.
    rewrite (accumulate_tree_entries _ _ _ _ _ _ _ E). split.
    + intros e He.
      destruct (tree_entries_origin imp directory t e He)
        as (root & files & file & Hw & Hf & Hd & _ & Hi & Hp).
      exists root, files, file. now repeat split.
    + intros subs files subdirs file router Hs Hd Hf Hp Hi.
      apply (tree_entries_of_file imp directory t (extend directory subs) files);
        try assumption.
      exact (walk_subtree subs t directory files subdirs Hs).
Qed.

(** [app/api/__private/sub/route.py] gives an entry, [hidden.py] in
    [__private] itself gives none. *)
Lemma dunder_directory_files_ignored_witness :
  In (route_path_of app_api (extend app_api ["__private"; "sub"]) "route.py", 0)
     [("/__private/sub", 0)]
  /\ load_routes fastapi one_router app_api private_tree true false no_tags
     = load_routes fastapi one_router app_api
         (Dir [] (FCons "__private"
                    (Dir [] (FCons "sub" (Dir ["route.py"] FNil) FNil)) FNil))
         true false no_tags.
Proof.
  split.
  - apply (proj2 (proj2 (dunder_directory_files_ignored
                           fastapi one_router app_api private_tree true false
                           no_tags)
                          [("/__private/sub", 0)] eq_refl)
             ["__private"; "sub"] ["route.py"] FNil "route.py" 0);
      try reflexivity.
    now left.
  - exact (proj1 (dunder_directory_files_ignored
                    fastapi one_router app_api private_tree true false no_tags)).
Defined.

(** C7 (as stated) fails: [app/api/__private/sub/route.py] lies inside
    [__private] and gives the entry [/__private/sub]. *)
Lemma dunder_subtree_counterexample :
  ~ dunder_subtrees_contribute_nothing
      one_router app_api private_tree true false no_tags
  /\ result_of (collect one_router app_api private_tree true false no_tags)
     = Ok [("/__private/sub", 0)].
Proof.
  split; [|reflexivity].
  unfold dunder_subtrees_contribute_nothing. vm_compute. discriminate.
Qed.
